(** * Provider matching pipeline (app.py): shallow embedding and properties

    The four stages of [app.py] (geo filter, quality scoring, cost model,
    specialty ranking) and the request handler that composes them.

    Modelling choices.
    - Python/pandas numbers are exact rationals ([Q]); equality of numbers is
      [Qeq] ([==]), the value equality that Python's [==] and pandas' sort
      use.  NaN and floating-point rounding error are outside the model: a
      composite that the program's binary arithmetic puts on the other side
      of a value halfway between two tenths is stored as the neighbouring
      tenth, so what is stated of a stored score does not depend on how
      such a value is rounded.
    - A dict and a DataFrame row (a pandas Series) are [gmap string value];
      [d.get(k, default)] and [d[k]] are lookups, the latter raising
      [KeyError].
    - A DataFrame is the list of its rows, in index order.  A column is read
      row by row, so a column is present when every row carries its key.
      A frame without rows has no record of its columns: a column read
      from it is the empty column.
    - The sort columns of the ranker are read as numbers, which is what the
      stages before it store in them.
    - Exceptions are an explicit [result] type. *)

From Stdlib Require Import QArith Qround Qminmax Lqa.
From stdpp Require Import gmap strings list sorting.

Local Open Scope Q_scope.
Local Open Scope string_scope.

(** ** Python values and exceptions *)

Inductive value : Type :=
  | VNum (q : Q)
  | VBool (b : bool)
  | VStr (s : string).

Inductive exn : Type :=
  | KeyError (key : string)
  | TypeError
  | ValueError
  | AttributeError.

Inductive result (A : Type) : Type :=
  | Ok (a : A)
  | Raise (e : exn).
Arguments Ok {A} a.
Arguments Raise {A} e.

#[global] Instance result_ret : MRet result := λ A a, Ok a.
#[global] Instance result_bind : MBind result := λ A B k m,
  match m with
  | Ok a => k a
  | Raise e => Raise e
  end.

#[global] Instance result_fmap : FMap result := λ A B f m,
  match m with
  | Ok a => Ok (f a)
  | Raise e => Raise e
  end.

Fixpoint mapM {A B : Type} (f : A → result B) (l : list A) : result (list B) :=
  match l with
  | [] => Ok []
  | a :: l' => b ← f a; bs ← mapM f l'; Ok (b :: bs)
  end.

(** Truth value of an object in a conditional ([if x], [not x]). *)
Definition truthy (v : value) : bool :=
  match v with
  | VNum q => negb (Qeq_bool q 0)
  | VBool b => b
  | VStr s => negb (String.eqb s "")
  end.

(** The number an object stands for in arithmetic; [bool] is a subtype of
    [int] in Python, a string operand raises [TypeError]. *)
Definition to_num (v : value) : result Q :=
  match v with
  | VNum q => Ok q
  | VBool b => Ok (if b then 1 else 0)
  | VStr _ => Raise TypeError
  end.

(** Python's [==] on two objects. *)
Definition value_eqb (a b : value) : bool :=
  match a, b with
  | VStr s, VStr t => String.eqb s t
  | VStr _, _ | _, VStr _ => false
  | _, _ =>
      match to_num a, to_num b with
      | Ok x, Ok y => Qeq_bool x y
      | _, _ => false
      end
  end.

(** Two-argument [min] and [max] of Python: the first argument is kept
    unless the second is strictly smaller (resp. strictly larger). *)
Definition py_min (a b : Q) : Q := if Qlt_le_dec b a then b else a.
Definition py_max (a b : Q) : Q := if Qlt_le_dec a b then b else a.

(** ** Dicts and rows *)

Abbreviation row := (gmap string value).
Abbreviation frame := (list (gmap string value)).

(** [d.get(k, default)] *)
Definition get (d : row) (k : string) (default : value) : value :=
  match d !! k with
  | Some v => v
  | None => default
  end.

(** [d[k]] *)
Definition getitem (d : row) (k : string) : result value :=
  match d !! k with
  | Some v => Ok v
  | None => Raise (KeyError k)
  end.

(** [d.get(k, default)] used as a number. *)
Definition get_num (d : row) (k : string) (default : Q) : result Q :=
  to_num (get d k (VNum default)).

(** [d.get(k, False)] used as a condition. *)
Definition get_flag (d : row) (k : string) : bool :=
  truthy (get d k (VBool false)).

(** ** Rounding: [round(decimals)] of pandas rounds half to even *)

Definition rint (q : Q) : Z :=
  let f := Qfloor q in
  let d := q - inject_Z f in
  if Qlt_le_dec d (1 # 2) then f
  else if Qlt_le_dec (1 # 2) d then (f + 1)%Z
  else if Z.even f then f else (f + 1)%Z.

(** [.round(1)] *)
Definition round1 (q : Q) : Q := inject_Z (rint (q * 10)) / 10.

(** ** QualityScorer *)

Definition calculate_quality_score (r : row) : result Q :=
  let score := 0 in
  let total_weight := 0 in
  experience_years ← get_num r "experience_years" 0;
  let exp_score := py_min (experience_years / 40) 1 * 10 in
  let score := score + exp_score * 0.20 in
  let total_weight := total_weight + 0.20 in
  patient_rating ← get_num r "patient_rating" 0;
  let rating_score := (patient_rating / 5) * 10 in
  let score := score + rating_score * 0.20 in
  let total_weight := total_weight + 0.20 in
  cms ← get_num r "CMS_quality_score" 0;
  let cms_score := (cms / 5) * 10 in
  let score := score + cms_score * 0.25 in
  let total_weight := total_weight + 0.25 in
  risk_rate ← get_num r "risk_rate" 0;
  let risk_score := (1 - risk_rate) * 10 in
  let score := score + risk_score * 0.15 in
  let total_weight := total_weight + 0.15 in
  let cert_score :=
    (if get_flag r "certified" then 5 else 0)
    + (if get_flag r "background_check_passed" then 5 else 0) in
  let score := score + cert_score * 0.10 in
  let total_weight := total_weight + 0.10 in
  let tele_score := if get_flag r "telehealth_available" then 10 else 0 in
  let score := score + tele_score * 0.10 in
  let total_weight := total_weight + 0.10 in
  let final_score := py_max 1 (py_min 5 (score / total_weight)) in
  Ok final_score.

(** One row of [quality_model]: the preference column is set first, then the
    two computed columns. *)
Definition quality_row (pref : value) (r : row) : result row :=
  let r1 := <["telehealth_preference" := pref]> r in
  s ← calculate_quality_score r1;
  let quality_score := round1 s in
  let r2 := <["quality_score" := VNum quality_score]> r1 in
  let benchmark_percent := rint (2 * quality_score * 10) in
  Ok (<["benchmark_percent" := VNum (inject_Z benchmark_percent)]> r2).

Definition quality_model (selected_providers : frame) (member : row)
  : result frame :=
  pref ← getitem member "telehealth_preference";
  mapM (quality_row pref) selected_providers.

(** ** CostModel *)

Definition coverage_map : gmap string Q :=
  {[ "PPO" := 0.85; "HMO" := 0.75; "EPO" := 0.65 ]}.
Definition visits_map : gmap string Q :=
  {[ "Low" := 2; "Medium" := 5; "High" := 10 ]}.

(** [table.get(key, default)] for a table keyed by strings: an object that is
    not a string equals none of the keys. *)
Definition table_get (table : gmap string Q) (key : value) (default : Q) : Q :=
  match key with
  | VStr s => match table !! s with Some x => x | None => default end
  | _ => default
  end.

Definition adj_cost (provider : row) : result Q :=
  service_cost ← get_num provider "service_cost" 0;
  experience_years ← get_num provider "experience_years" 0;
  Ok (service_cost * (1 + 0.01 * experience_years)).

Definition wait_penalty (provider member : row) : result Q :=
  wait_time_days ← get_num provider "wait_time_days" 0;
  expected ← get_num member "expected_wait_time_days" 5;
  Ok (1 + 0.01 * py_max 0 (wait_time_days - expected)).

Definition coverage_share (member : row) : Q :=
  table_get coverage_map (get member "coverage_plan" (VStr "PPO")) 0.6.

Definition visits (member : row) : Q :=
  table_get visits_map (get member "risk_level" (VStr "Medium")) 5.

Definition calculate_payment (provider member : row) : result (Q * Q) :=
  adj_cost ← adj_cost provider;
  wait_penalty ← wait_penalty provider member;
  let coverage_share := coverage_share member in
  let visits := visits member in
  let base_payment := adj_cost * coverage_share in
  invested_amount ← get_num member "invested_amount" 0;
  let member_share := 0.2 * invested_amount in
  let raw_payment := (base_payment - member_share) * visits * wait_penalty in
  let min_payment := 0.2 * adj_cost * visits in
  let payment := py_max raw_payment min_payment in
  Ok (payment, member_share).

(** [c in df.columns]: the columns of a frame built from records are the keys
    its records carry. *)
Definition has_column (df : frame) (c : string) : bool :=
  existsb (λ r, bool_decide (is_Some (r !! c))) df.

(** [df.rename(columns={old: new})] on one row. *)
Definition rename_column (old new : string) (r : row) : row :=
  match r !! old with
  | Some v => <[new := v]> (delete old r)
  | None => r
  end.

Definition cost_row (member : row) (p : row) : result row :=
  '(payment, member_share) ← calculate_payment p member;
  Ok (<["member_share" := VNum member_share]>
        (<["insurance_payment" := VNum payment]> p)).

Definition cost_model (quality_df : frame) (member : row) : result frame :=
  quality_df ← mapM (cost_row member) quality_df;
  if negb (has_column quality_df "name") && has_column quality_df "provider_name"
  then Ok (rename_column "provider_name" "name" <$> quality_df)
  else Ok quality_df.

(** ** Ranker *)

Definition specialty_priority (primary secondary specialty : value) : Z :=
  if value_eqb specialty primary then 1
  else if value_eqb specialty secondary then 2
  else 3.

(** The four sort columns of one row. *)
Record sort_key : Type := SortKey {
  key_priority : Q;
  key_quality : Q;
  key_miles : Q;
  key_payment : Q
}.

(** A cell of a sort column, read as a number, as the stages before the
    ranker store it.  A column of strings, which pandas would order as well,
    is outside the data model: the model answers [TypeError] for it. *)
Definition column_num (r : row) (c : string) : result Q :=
  v ← getitem r c; to_num v.

Definition sort_key_of (r : row) : result sort_key :=
  p ← column_num r "specialty_priority";
  q ← column_num r "quality_score";
  d ← column_num r "distance_miles";
  c ← column_num r "insurance_payment";
  Ok (SortKey p q d c).

(** Order of [by=[specialty_priority, quality_score, distance_miles,
    insurance_payment]], [ascending=[True, False, True, True]]. *)
Definition key_leb (a b : sort_key) : bool :=
  if Qlt_le_dec (key_priority a) (key_priority b) then true
  else if Qlt_le_dec (key_priority b) (key_priority a) then false
  else if Qlt_le_dec (key_quality b) (key_quality a) then true
  else if Qlt_le_dec (key_quality a) (key_quality b) then false
  else if Qlt_le_dec (key_miles a) (key_miles b) then true
  else if Qlt_le_dec (key_miles b) (key_miles a) then false
  else Qle_bool (key_payment a) (key_payment b).

(** Rows equal on all four keys. *)
Definition key_eqb (a b : sort_key) : bool :=
  Qeq_bool (key_priority a) (key_priority b)
  && Qeq_bool (key_quality a) (key_quality b)
  && Qeq_bool (key_miles a) (key_miles b)
  && Qeq_bool (key_payment a) (key_payment b).

(** [sort_values] on several columns is a lexicographic sort that keeps the
    index order of rows with equal keys; it is modelled by insertion from the
    right, each row entering in front of the rows it does not exceed. *)
Fixpoint insert_row (x : sort_key * row) (l : list (sort_key * row))
  : list (sort_key * row) :=
  match l with
  | [] => [x]
  | y :: l' => if key_leb x.1 y.1 then x :: y :: l' else y :: insert_row x l'
  end.

Fixpoint sort_rows (l : list (sort_key * row)) : list (sort_key * row) :=
  match l with
  | [] => []
  | x :: l' => insert_row x (sort_rows l')
  end.

Definition keyed (r : row) : result (sort_key * row) :=
  k ← sort_key_of r; Ok (k, r).

Definition sort_values (df : frame) : result frame :=
  rows ← mapM keyed df;
  Ok ((sort_rows rows).*2).

Definition set_priority (primary secondary : value) (r : row) : result row :=
  specialty ← getitem r "specialty";
  let prio := specialty_priority primary secondary specialty in
  Ok (<["specialty_priority" := VNum (inject_Z prio)]> r).

(** [final_df["specialty_priority"] = final_df["specialty"].apply(...)].
    The column is read row by row, so a frame without rows gives the empty
    column; pandas raises [KeyError] for such a frame when it was built
    without a specialty column, a frame the handler never hands on. *)
Definition assign_priority (final_df : frame) (member : row) : result frame :=
  primary ← getitem member "primary_specialty_needed";
  secondary ← getitem member "secondary_specialty_needed";
  mapM (set_priority primary secondary) final_df.

(** [top_n] is a result size; [head] keeps the first [top_n] rows. *)
Definition rank_with_specialty_priority (final_df : frame) (member : row)
    (top_n : nat) : result frame :=
  final_df ← assign_priority final_df member;
  ranked ← sort_values final_df;
  Ok (take top_n ranked).

(** ** GeoFilter and the request handler *)

Section Pipeline.

(** [great_circle(a, b).km] of geopy, on the coordinate objects it is given;
    it raises [ValueError] for a latitude outside [-90, 90]. *)
Variable great_circle : value * value → value * value → result Q.

Definition provider_data (provider : row) (dist_km : Q) : row :=
  <["drive_time_minutes" := VNum ((dist_km / 50) * 60)]>
    (<["distance_miles" := VNum (dist_km * 0.621371)]>
       (<["distance_km" := VNum dist_km]> provider)).

(** The distance computed for one provider row. *)
Definition provider_distance (member_lat member_lon : value) (provider : row)
  : result Q :=
  lat ← getitem provider "latitude";
  lon ← getitem provider "longitude";
  great_circle (member_lat, member_lon) (lat, lon).

(** One iteration of the loop over [providers_df.iterrows()]. *)
Definition geo_step (member_lat member_lon max_distance_km : value)
    (providers_in_radius : frame) (provider : row) : result frame :=
  dist_km ← provider_distance member_lat member_lon provider;
  limit ← to_num max_distance_km;
  if Qle_bool dist_km limit
  then Ok (providers_in_radius ++ [provider_data provider dist_km])%list
  else Ok providers_in_radius.

Fixpoint geo_loop (member_lat member_lon max_distance_km : value)
    (providers_in_radius : frame) (providers_df : frame) : result frame :=
  match providers_df with
  | [] => Ok providers_in_radius
  | provider :: rest =>
      acc ← geo_step member_lat member_lon max_distance_km
              providers_in_radius provider;
      geo_loop member_lat member_lon max_distance_km acc rest
  end.

Definition find_providers_in_radius (member_lat member_lon : value)
    (providers_df : frame) (max_distance_km : value) : result frame :=
  geo_loop member_lat member_lon max_distance_km [] providers_df.

(** What [request.get_json()] hands to the handler: the dict of a JSON
    object, or the value of another JSON document ([null], [true] or
    [false], a number, a string, an array), which has no [get].  The handler
    reads the one field member_id of an object; [d] holds the fields whose
    value is a number, a string or [true]/[false].  A field that holds
    [null] reads as an absent one does, and so do an empty array and an empty
    object in the test [not member_id]; a member id that is a non-empty array
    or object is outside the model. *)
Inductive request_json : Type :=
  | JsonObject (d : row)
  | JsonOther.

(** [data.get(k)] *)
Definition json_get (data : request_json) (k : string)
  : result (option value) :=
  match data with
  | JsonObject d => Ok (d !! k)
  | JsonOther => Raise AttributeError
  end.

(** The JSON answers of [/api/find-providers]. *)
Inductive message : Type :=
  | MemberIdRequired
  | ServerDataNotAvailable
  | MemberNotFound (member_id : value).

Inductive body : Type :=
  | Message (m : message)
  | Providers (providers : frame) (lat lon : value).

Record response : Type := Response { status : Z; json : body }.

(** [df.empty] *)
Definition empty (df : frame) : bool :=
  match df with [] => true | _ => false end.

(** [df[df[c] == v]] *)
Fixpoint select_eq (df : frame) (c : string) (v : value) : result frame :=
  match df with
  | [] => Ok []
  | r :: df' =>
      x ← getitem r c;
      rest ← select_eq df' c v;
      Ok (if value_eqb x v then r :: rest else rest)
  end.

Definition find_providers_api (members_df providers_df : frame)
    (data : request_json) : result response :=
  member_id ← json_get data "member_id";
  match member_id with
  | None => Ok (Response 400 (Message MemberIdRequired))
  | Some member_id =>
      if negb (truthy member_id)
      then Ok (Response 400 (Message MemberIdRequired))
      else if empty members_df || empty providers_df
      then Ok (Response 500 (Message ServerDataNotAvailable))
      else
        member_data ← select_eq members_df "member_id" member_id;
        match member_data with
        | [] => Ok (Response 404 (Message (MemberNotFound member_id)))
        | member :: _ =>
            lat ← getitem member "latitude";
            lon ← getitem member "longitude";
            max_km ← getitem member "max_travel_distance_km";
            geo_df ← find_providers_in_radius lat lon providers_df max_km;
            if empty geo_df
            then Ok (Response 200 (Providers [] lat lon))
            else
              quality_df ← quality_model geo_df member;
              final_df ← cost_model quality_df member;
              recommended ← rank_with_specialty_priority final_df member 10;
              Ok (Response 200 (Providers recommended lat lon))
        end
  end.

End Pipeline.

(** ** Vocabulary of the specification *)

(** A field that, when present, holds a number or a flag. *)
Definition numeric_or_absent (d : row) (k : string) : Prop :=
  ∀ s, d !! k ≠ Some (VStr s).

(** The value of a numeric attribute, absent ones counting as 0. *)
Definition attr (r : row) (k : string) : Q :=
  match get_num r k 0 with
  | Ok q => q
  | Raise _ => 0
  end.

(** The weighted composite of the scoring table: component formulas on the
    0-10 scale, each multiplied by its weight. *)
Definition weighted_composite (r : row) : Q :=
  0.20 * (Qmin (attr r "experience_years" / 40) 1 * 10)
  + 0.20 * (attr r "patient_rating" / 5 * 10)
  + 0.25 * (attr r "CMS_quality_score" / 5 * 10)
  + 0.15 * ((1 - attr r "risk_rate") * 10)
  + 0.10 * ((if get_flag r "certified" then 5 else 0)
            + (if get_flag r "background_check_passed" then 5 else 0))
  + 0.10 * (if get_flag r "telehealth_available" then 10 else 0).

Definition clamp (lo hi x : Q) : Q := Qmax lo (Qmin hi x).

(** [q] is [x] rounded to one decimal place: a whole number of tenths at most
    half a tenth away from [x].  The rule for a value halfway between two
    tenths is left open: both neighbours qualify. *)
Definition rounded_to_tenths (x q : Q) : Prop :=
  (∃ n : Z, q * 10 == inject_Z n) ∧ q - x <= 0.05 ∧ x - q <= 0.05.

(** The attributes the scorer reads are numeric where present. *)
Definition scoring_attrs_numeric (r : row) : Prop :=
  Forall (numeric_or_absent r)
    ["experience_years"; "patient_rating"; "CMS_quality_score"; "risk_rate"].

(** A numeric attribute that is absent, zero or false. *)
Definition reads_zero (r : row) (k : string) : Prop :=
  ∃ q, get_num r k 0 = Ok q ∧ q == 0.

Definition scoring_attrs_zero (r : row) : Prop :=
  Forall (reads_zero r)
    ["experience_years"; "patient_rating"; "CMS_quality_score"; "risk_rate"]
  ∧ Forall (λ k, get_flag r k = false)
    ["certified"; "background_check_passed"; "telehealth_available"].

(** The fallback of every [get] in the scorer and in the cost model. *)
Definition scoring_defaults : gmap string value :=
  {[ "experience_years" := VNum 0; "patient_rating" := VNum 0;
     "CMS_quality_score" := VNum 0; "risk_rate" := VNum 0;
     "certified" := VBool false; "background_check_passed" := VBool false;
     "telehealth_available" := VBool false ]}.

Definition provider_defaults : gmap string value :=
  {[ "service_cost" := VNum 0; "experience_years" := VNum 0;
     "wait_time_days" := VNum 0 ]}.

Definition member_defaults : gmap string value :=
  {[ "expected_wait_time_days" := VNum 5; "coverage_plan" := VStr "PPO";
     "risk_level" := VStr "Medium"; "invested_amount" := VNum 0 ]}.

(** The composite order of the ranking: priority ascending, quality
    descending, distance ascending, payment ascending. *)
Definition key_le (a b : sort_key) : Prop :=
  key_priority a < key_priority b
  ∨ (key_priority a == key_priority b ∧ key_quality b < key_quality a)
  ∨ (key_priority a == key_priority b ∧ key_quality a == key_quality b
     ∧ key_miles a < key_miles b)
  ∨ (key_priority a == key_priority b ∧ key_quality a == key_quality b
     ∧ key_miles a == key_miles b ∧ key_payment a <= key_payment b).

Definition row_le (a b : row) : Prop :=
  ∃ ka kb, sort_key_of a = Ok ka ∧ sort_key_of b = Ok kb ∧ key_le ka kb.

(** The rows whose four sort keys equal [k]. *)
Definition has_key (k : sort_key) (r : row) : bool :=
  match sort_key_of r with
  | Ok k' => key_eqb k k'
  | Raise _ => false
  end.

(** A row the ranker can process. *)
Definition rankable (r : row) : Prop :=
  is_Some (r !! "specialty")
  ∧ Forall (λ c, ∃ q, column_num r c = Ok q)
      ["quality_score"; "distance_miles"; "insurance_payment"].

(** The two columns the scorer computes. *)
Definition scores (df : frame) : list (option value * option value) :=
  (λ r : row, (r !! "quality_score", r !! "benchmark_percent")) <$> df.

(** A provider record with every scoring attribute zero or false. *)
Definition blank_provider : row :=
  {[ "experience_years" := VNum 0; "patient_rating" := VNum 0;
     "CMS_quality_score" := VNum 0; "risk_rate" := VNum 0;
     "certified" := VBool false; "background_check_passed" := VBool false;
     "telehealth_available" := VBool false ]}.

(** The attributes the cost model reads are numeric where present. *)
Definition pricing_attrs_numeric (provider member : row) : Prop :=
  Forall (numeric_or_absent provider)
    ["service_cost"; "experience_years"; "wait_time_days"]
  ∧ Forall (numeric_or_absent member)
    ["expected_wait_time_days"; "invested_amount"].

(** Keyed rows in the order of the sort, and rows that travel with their own
    key. *)
Definition keys_sorted : list (sort_key * row) → Prop :=
  Sorted (λ x y, key_leb x.1 y.1 = true).

Definition well_keyed (l : list (sort_key * row)) : Prop :=
  Forall (λ x, sort_key_of x.2 = Ok x.1) l.

(** The providers within [limit], given each provider's distance, with their
    annotations. *)
Definition within_radius (provider_data : row → Q → row) (limit : Q)
    (l : list (row * Q)) : frame :=
  (λ pd, provider_data pd.1 pd.2)
    <$> List.filter (λ pd, Qle_bool pd.2 limit) l.

(** A member row whose id differs from the requested one. *)
Definition other_member (member_id : value) (r : row) : Prop :=
  ∃ v, r !! "member_id" = Some v ∧ value_eqb v member_id = false.

(** The data contract of the handler: what every member and every provider
    record supplies. *)
Definition member_complete (m : row) : Prop :=
  Forall (λ k, is_Some (m !! k))
    ["member_id"; "latitude"; "longitude"; "max_travel_distance_km";
     "telehealth_preference"; "primary_specialty_needed";
     "secondary_specialty_needed"]
  ∧ Forall (numeric_or_absent m)
      ["max_travel_distance_km"; "expected_wait_time_days"; "invested_amount"].

Definition provider_complete (p : row) : Prop :=
  is_Some (p !! "specialty")
  ∧ Forall (numeric_or_absent p)
      ["experience_years"; "patient_rating"; "CMS_quality_score"; "risk_rate";
       "service_cost"; "wait_time_days"].

(** A row that holds a number in each of the given columns. *)
Definition has_numbers (cols : list string) (r : row) : Prop :=
  Forall (λ c, ∃ q, r !! c = Some (VNum q)) cols.

(** What a row carries after the geo filter, after scoring and after
    pricing. *)
Definition located (r : row) : Prop :=
  provider_complete r ∧ has_numbers ["distance_miles"] r.

Definition scored (r : row) : Prop :=
  provider_complete r ∧ has_numbers ["distance_miles"; "quality_score"] r.

Definition priced (r : row) : Prop :=
  is_Some (r !! "specialty")
  ∧ has_numbers ["quality_score"; "distance_miles"; "insurance_payment"] r.

(** ** Sample data for the examples *)

(** A stand-in for the distance function: the taxicab distance of numeric
    coordinates. *)
Definition sample_distance (a b : value * value) : result Q :=
  match a, b with
  | (VNum x, VNum y), (VNum u, VNum v) =>
      Ok (py_max (x - u) (u - x) + py_max (y - v) (v - y))
  | _, _ => Raise ValueError
  end.

Definition sample_member : row :=
  {[ "member_id" := VStr "M1"; "latitude" := VNum 0; "longitude" := VNum 0;
     "max_travel_distance_km" := VNum 10;
     "telehealth_preference" := VBool true;
     "primary_specialty_needed" := VStr "Cardiology";
     "secondary_specialty_needed" := VStr "Dermatology" ]}.

Definition sample_provider (name : string) (lat : Q) : row :=
  {[ "name" := VStr name; "latitude" := VNum lat; "longitude" := VNum 0;
     "specialty" := VStr "Cardiology" ]}.

Definition sample_scored (name specialty : string) (quality miles payment : Q)
  : row :=
  {[ "name" := VStr name; "specialty" := VStr specialty;
     "quality_score" := VNum quality; "distance_miles" := VNum miles;
     "insurance_payment" := VNum payment ]}.

Definition sample_scored_frame : frame :=
  [ sample_scored "A" "Dermatology" 4 1 100;
    sample_scored "B" "Cardiology" 3.5 2 100;
    sample_scored "C" "Cardiology" 3.5 2 100;
    sample_scored "D" "Cardiology" 4.5 9 300 ].

(** ** The listing endpoint and the data load *)

(** The JSON answers of [/api/get-all-providers]: the error object or the list
    of provider records. *)
Inductive listing : Type :=
  | ProviderDataNotAvailable
  | Records (records : frame).

Definition get_all_providers (providers_df : frame) : Z * listing :=
  if empty providers_df then (500%Z, ProviderDataNotAvailable)
  else
    let df := providers_df in
    if negb (has_column df "name") && has_column df "provider_name"
    then (200%Z, Records (rename_column "provider_name" "name" <$> df))
    else (200%Z, Records df).

(** The load at start-up. Each [read_csv] yields a frame or raises
    [FileNotFoundError] ([None]); the handler of the exception leaves both
    datasets empty. *)
Definition load_data (members_csv providers_csv : option frame)
  : frame * frame :=
  match members_csv with
  | None => ([], [])
  | Some members_df =>
      match providers_csv with
      | None => ([], [])
      | Some providers_df => (members_df, providers_df)
      end
  end.

(** ** Further vocabulary *)

(** The columns the three stages before the ranker write. *)
Definition geo_columns : list string :=
  ["distance_km"; "distance_miles"; "drive_time_minutes"].

Definition quality_columns : list string :=
  ["telehealth_preference"; "quality_score"; "benchmark_percent"].

Definition cost_columns : list string :=
  ["insurance_payment"; "member_share"].

(** Two rows that agree outside the given columns. *)
Definition same_outside (cols : list string) (r r' : row) : Prop :=
  ∀ k, k ∉ cols → r' !! k = r !! k.

(** A change of one scoring attribute for the better: more experience, a
    higher rating or regulatory score, a lower risk rate, or a credential
    gained. *)
Definition improves (k : string) (v v' : value) : Prop :=
  (k ∈ ["experience_years"; "patient_rating"; "CMS_quality_score"]
   ∧ ∃ x y, v = VNum x ∧ v' = VNum y ∧ x <= y)
  ∨ (k = "risk_rate" ∧ ∃ x y, v = VNum x ∧ v' = VNum y ∧ y <= x)
  ∨ (k ∈ ["certified"; "background_check_passed"; "telehealth_available"]
     ∧ v = VBool false ∧ v' = VBool true).

(** The name normalization that [cost_model] and [get_all_providers] both
    apply to a frame. *)
Definition normalize_names (df : frame) : frame :=
  if negb (has_column df "name") && has_column df "provider_name"
  then rename_column "provider_name" "name" <$> df
  else df.

(** A row after normalization of a frame without a name column. *)
Definition name_promoted (p r : row) : Prop :=
  r !! "name" = p !! "provider_name"
  ∧ r !! "provider_name" = None
  ∧ same_outside ["name"; "provider_name"] p r.

(** A row of the ranker's working frame: the input row [r] with its priority
    column set. *)
Definition prioritized (primary secondary : value) (r r' : row) : Prop :=
  ∃ s, r !! "specialty" = Some s
    ∧ r' = <["specialty_priority" :=
               VNum (inject_Z (specialty_priority primary secondary s))]> r.

(** A row that has a cell in each of the given columns. *)
Definition has_cells (cols : list string) (r : row) : Prop :=
  Forall (λ c, is_Some (r !! c)) cols.

(** The columns [sort_values] is asked to sort by, after the priority column
    that the ranker itself has just written. *)
Definition sort_columns : list string :=
  ["quality_score"; "distance_miles"; "insurance_payment"].

(** A row whose specialty is the given one, under Python's [==]. *)
Definition has_specialty (wanted : value) (r : row) : Prop :=
  ∃ s, r !! "specialty" = Some s ∧ value_eqb s wanted = true.

(** Rows in the order of their priority column. *)
Definition priority_le (a b : row) : Prop :=
  ∃ ka kb, sort_key_of a = Ok ka ∧ sort_key_of b = Ok kb
    ∧ key_priority ka <= key_priority kb.

(** What every provider row of an answer of [/api/find-providers] carries,
    for a member whose maximum travel distance is [max_km]. *)
Definition answered_provider (max_km : value) (r : row) : Prop :=
  ∃ limit km quality payment priority,
    to_num max_km = Ok limit
    ∧ r !! "distance_km" = Some (VNum km) ∧ km <= limit
    ∧ r !! "quality_score" = Some (VNum quality)
    ∧ 1 <= quality ∧ quality <= 5
    ∧ r !! "insurance_payment" = Some (VNum payment)
    ∧ r !! "specialty_priority" = Some (VNum (inject_Z priority))
    ∧ (priority = 1 ∨ priority = 2 ∨ priority = 3)%Z.

(** * Properties *)

(** ** The exception monad *)

Lemma bind_Ok {A B : Type} (m : result A) (k : A → result B) (b : B) :
  m ≫= k = Ok b ↔ ∃ a, m = Ok a ∧ k a = Ok b.
Proof.
  destruct m as [a|e]; simpl; split.
  - intros H. by exists a.
  - by intros (a' & [= <-] & H).
  - intros [=].
  - intros (a' & [=] & _).
Qed.

Lemma Ok_inj {A : Type} (a b : A) : Ok a = Ok b → a = b.
Proof. by intros [= ->]. Qed.

Ltac inv_bind H :=
  let a := fresh "a" in
  let Ha := fresh "Ha" in
  apply bind_Ok in H as (a & Ha & H).

Lemma mapM_Ok {A B : Type} (f : A → result B) (l : list A) (l' : list B) :
  mapM f l = Ok l' ↔ Forall2 (λ a b, f a = Ok b) l l'.
Proof.
  revert l'. induction l as [|a l IH]; intros l'; simpl.
  - split; [intros [= <-]; constructor | by inversion 1].
  - split.
    + intros H. inv_bind H. inv_bind H. injection H as <-.
      constructor; [done | by apply IH].
    + inversion 1 as [|? b ? bs Hb Hbs]; subst.
      rewrite Hb. simpl. apply IH in Hbs. rewrite Hbs. done.
Qed.

Lemma mapM_length {A B : Type} (f : A → result B) (l : list A) (l' : list B) :
  mapM f l = Ok l' → length l' = length l.
Proof. intros H%mapM_Ok. symmetry. by eapply Forall2_length. Qed.

Lemma mapM_total {A B : Type} (f : A → result B) (l : list A) :
  Forall (λ a, ∃ b, f a = Ok b) l → ∃ l', mapM f l = Ok l'.
Proof.
  induction 1 as [|a l [b Hb] _ [l' Hl']]; simpl; [by eexists |].
  rewrite Hb. simpl. rewrite Hl'. simpl. by eexists.
Qed.

(** ** Numbers *)

Lemma py_min_Qmin (a b : Q) : py_min a b == Qmin a b.
Proof.
  unfold py_min. destruct (Qlt_le_dec b a) as [H|H]; symmetry.
  - apply Q.min_r. lra.
  - by apply Q.min_l.
Qed.

Lemma py_max_Qmax (a b : Q) : py_max a b == Qmax a b.
Proof.
  unfold py_max. destruct (Qlt_le_dec a b) as [H|H]; symmetry.
  - apply Q.max_r. lra.
  - by apply Q.max_l.
Qed.

Lemma py_max_lower (a b : Q) : a <= py_max a b ∧ b <= py_max a b.
Proof. unfold py_max. destruct (Qlt_le_dec a b); lra. Qed.

Lemma clamp_bounds (x : Q) :
  1 <= py_max 1 (py_min 5 x) ∧ py_max 1 (py_min 5 x) <= 5.
Proof. unfold py_max, py_min. repeat destruct (Qlt_le_dec _ _); lra. Qed.

Lemma rint_comp (q q' : Q) : q == q' → rint q = rint q'.
Proof.
  intros E. unfold rint. rewrite <- (Qfloor_comp _ _ E).
  repeat destruct (Qlt_le_dec _ _); try reflexivity; lra.
Qed.

Lemma rint_lower (n : Z) (q : Q) : inject_Z n <= q → (n <= rint q)%Z.
Proof.
  intros H. apply Qfloor_resp_le in H. rewrite Qfloor_Z in H.
  unfold rint. repeat destruct (Qlt_le_dec _ _); try destruct (Z.even _); lia.
Qed.

Lemma rint_upper (n : Z) (q : Q) : q <= inject_Z n → (rint q <= n)%Z.
Proof.
  intros H. pose proof (Qfloor_le q) as Hf.
  assert (Qfloor q <= n)%Z as Hn.
  { apply Qfloor_resp_le in H. by rewrite Qfloor_Z in H. }
  destruct (Z.eq_dec (Qfloor q) n) as [E|E].
  - unfold rint. rewrite E.
    destruct (Qlt_le_dec _ _); [done | lra].
  - unfold rint. repeat destruct (Qlt_le_dec _ _); try destruct (Z.even _); lia.
Qed.

Lemma round1_comp (q q' : Q) : q == q' → round1 q = round1 q'.
Proof.
  intros E. unfold round1. f_equal. f_equal. apply rint_comp. by rewrite E.
Qed.

Lemma round1_bounds (q : Q) : 1 <= q → q <= 5 → 1 <= round1 q ∧ round1 q <= 5.
Proof.
  intros H1 H5. unfold round1.
  assert (10 <= rint (q * 10))%Z as Hl.
  { apply rint_lower. change (inject_Z 10) with 10. lra. }
  assert (rint (q * 10) <= 50)%Z as Hu.
  { apply rint_upper. change (inject_Z 50) with 50. lra. }
  rewrite Zle_Qle in Hl, Hu.
  change (inject_Z 10) with 10 in Hl. change (inject_Z 50) with 50 in Hu.
  split; [apply Qle_shift_div_l | apply Qle_shift_div_r]. all: lra.
Qed.

Lemma clamp_comp (lo hi x y : Q) : x == y → clamp lo hi x == clamp lo hi y.
Proof.
  intros E. unfold clamp.
  apply Q.max_compat; [reflexivity |]. by apply Q.min_compat.
Qed.

(** ** Rounding: nearness and monotonicity *)

Lemma rint_inject_Z (z : Z) : rint (inject_Z z) = z.
Proof.
  unfold rint. rewrite Qfloor_Z.
  destruct (Qlt_le_dec _ _) as [|H]; [done |]. lra.
Qed.

Lemma rint_near (q : Q) :
  inject_Z (rint q) - q <= 1 # 2 ∧ q - inject_Z (rint q) <= 1 # 2.
Proof.
  pose proof (Qfloor_le q) as Hl. pose proof (Qlt_floor q) as Hu.
  rewrite inject_Z_plus in Hu. change (inject_Z 1) with 1 in Hu.
  unfold rint.
  repeat destruct (Qlt_le_dec _ _); try destruct (Z.even _);
    rewrite ?inject_Z_plus; change (inject_Z 1) with 1; lra.
Qed.

Lemma rint_mono (q q' : Q) : q <= q' → (rint q <= rint q')%Z.
Proof.
  intros H. pose proof (Qfloor_resp_le _ _ H) as Hf.
  pose proof (Qlt_floor q) as Hu. pose proof (Qfloor_le q') as Hl'.
  destruct (Z.eq_dec (Qfloor q) (Qfloor q')) as [E|E].
  - unfold rint. rewrite <- E.
    repeat destruct (Qlt_le_dec _ _); try destruct (Z.even _); try lia; lra.
  - assert (Qfloor q + 1 <= Qfloor q')%Z as Hs by lia.
    unfold rint.
    repeat destruct (Qlt_le_dec _ _); repeat destruct (Z.even _); lia.
Qed.

Lemma round1_mono (q q' : Q) : q <= q' → round1 q <= round1 q'.
Proof.
  intros H. unfold round1.
  assert (rint (q * 10) <= rint (q' * 10))%Z as Hr by (apply rint_mono; lra).
  rewrite Zle_Qle in Hr. apply Qmult_le_compat_r; [done | by compute].
Qed.

Lemma round1_near (q : Q) : round1 q - q <= 1 # 20 ∧ q - round1 q <= 1 # 20.
Proof.
  unfold round1. destruct (rint_near (q * 10)) as [H1 H2].
  set (n := inject_Z (rint (q * 10))) in *.
  assert (n / 10 == n * (1 # 10)) as -> by (field; done).
  lra.
Qed.

(** The score is a whole number of tenths. *)
Lemma round1_tenths (q : Q) : round1 q * 10 == inject_Z (rint (q * 10)).
Proof. unfold round1. field. Qed.

(** ** Lookups *)

Lemma get_insert_ne (d : row) (k k' : string) (v default : value) :
  k ≠ k' → get (<[k := v]> d) k' default = get d k' default.
Proof. intros H. unfold get. by rewrite lookup_insert_ne. Qed.

Lemma get_num_insert_ne (d : row) (k k' : string) (v : value) (default : Q) :
  k ≠ k' → get_num (<[k := v]> d) k' default = get_num d k' default.
Proof. intros H. unfold get_num. by rewrite get_insert_ne. Qed.

Lemma get_flag_insert_ne (d : row) (k k' : string) (v : value) :
  k ≠ k' → get_flag (<[k := v]> d) k' = get_flag d k'.
Proof. intros H. unfold get_flag. by rewrite get_insert_ne. Qed.

(** A default that the table of defaults also holds can be filled in. *)
Lemma get_union_default (d defaults : row) (k : string) (default : value) :
  defaults !! k = Some default → get (d ∪ defaults) k default = get d k default.
Proof.
  intros H. unfold get. rewrite lookup_union.
  destruct (d !! k); simpl; [by destruct (defaults !! k) | by rewrite H].
Qed.

Lemma get_num_total (d : row) (k : string) (default : Q) :
  numeric_or_absent d k → ∃ q, get_num d k default = Ok q.
Proof.
  intros H. unfold get_num, get. specialize (H).
  destruct (d !! k) as [[q|b|s]|] eqn:E; simpl; eauto.
  by destruct (H s).
Qed.

(** ** QualityScorer *)

Lemma calculate_quality_score_pref (pref : value) (r : row) :
  calculate_quality_score (<["telehealth_preference" := pref]> r)
  = calculate_quality_score r.
Proof.
  unfold calculate_quality_score.
  by rewrite !get_num_insert_ne, !get_flag_insert_ne.
Qed.

Lemma calculate_quality_score_Ok (r : row) (s : Q) :
  calculate_quality_score r = Ok s →
  1 <= s ∧ s <= 5 ∧ s == clamp 1 5 (weighted_composite r).
Proof.
  unfold calculate_quality_score. intros H.
  inv_bind H. inv_bind H. inv_bind H. inv_bind H. apply Ok_inj in H as <-.
  split; [apply clamp_bounds | split; [apply clamp_bounds |]].
  rewrite py_max_Qmax, py_min_Qmin. unfold clamp, weighted_composite, attr.
  rewrite Ha, Ha0, Ha1, Ha2. rewrite py_min_Qmin.
  apply Q.max_compat; [reflexivity |]. apply Q.min_compat; [reflexivity |].
  repeat destruct (get_flag r _); field.
Qed.

Lemma calculate_quality_score_total (r : row) :
  scoring_attrs_numeric r → ∃ s, calculate_quality_score r = Ok s.
Proof.
  intros H. unfold scoring_attrs_numeric in H. rewrite !Forall_cons in H.
  destruct H as (He & Hp & Hc & Hr & _).
  unfold calculate_quality_score.
  destruct (get_num_total r _ 0 He) as [? ->].
  destruct (get_num_total r _ 0 Hp) as [? ->].
  destruct (get_num_total r _ 0 Hc) as [? ->].
  destruct (get_num_total r _ 0 Hr) as [? ->].
  simpl. eauto.
Qed.

Lemma quality_row_Ok (pref : value) (r out : row) :
  quality_row pref r = Ok out ↔
  ∃ s, calculate_quality_score r = Ok s
    ∧ out = <["benchmark_percent" := VNum (inject_Z (rint (2 * round1 s * 10)))]>
              (<["quality_score" := VNum (round1 s)]>
                 (<["telehealth_preference" := pref]> r)).
Proof.
  unfold quality_row. rewrite calculate_quality_score_pref. split.
  - intros H. inv_bind H. apply Ok_inj in H as <-. eauto.
  - intros (s & -> & ->). done.
Qed.

Lemma quality_row_score (pref : value) (r : row) (s : Q) :
  calculate_quality_score r = Ok s →
  ∃ out, quality_row pref r = Ok out
    ∧ out !! "quality_score" = Some (VNum (round1 s)).
Proof.
  intros Hs. eexists. split; [apply quality_row_Ok; eauto |].
  rewrite lookup_insert_ne by done. apply lookup_insert_eq.
Qed.

(** C6. For every provider record, whatever attributes are present, missing,
    zero or false, the quality score that [quality_model] stores lies in the
    closed interval [1, 5] and is the weighted composite, clamped to [1, 5],
    rounded to one decimal place: a whole number of tenths at most 0.05 away
    from the clamped composite, whichever way a value halfway between two
    tenths is rounded.  The scorer returns a score as soon as the numeric
    attributes that are present hold numbers. *)
Theorem quality_score_clamped_and_rounded (pref : value) (r : row) :
  (∀ out, quality_row pref r = Ok out →
     ∃ q, out !! "quality_score" = Some (VNum q)
       ∧ 1 <= q ∧ q <= 5
       ∧ rounded_to_tenths (clamp 1 5 (weighted_composite r)) q)
  ∧ (scoring_attrs_numeric r → ∃ out, quality_row pref r = Ok out).
Proof.
  split.
  - intros out (s & Hs & ->)%quality_row_Ok.
    apply calculate_quality_score_Ok in Hs as (H1 & H5 & Hc).
    exists (round1 s).
    split; [rewrite lookup_insert_ne by done; apply lookup_insert_eq |].
    split; [by apply round1_bounds |]. split; [by apply round1_bounds |].
    split; [exists (rint (s * 10)); apply round1_tenths |].
    destruct (round1_near s) as [Hu Hl]. rewrite <- Hc. split; lra.
  - intros [s Hs]%calculate_quality_score_total.
    eexists. apply quality_row_Ok. eauto.
Qed.

Lemma quality_score_clamped_and_rounded_witness :
  ∃ out, quality_row (VBool true) blank_provider = Ok out
    ∧ ∃ q, out !! "quality_score" = Some (VNum q)
        ∧ 1 <= q ∧ q <= 5
        ∧ rounded_to_tenths (clamp 1 5 (weighted_composite blank_provider)) q.
Proof.
  destruct (quality_score_clamped_and_rounded (VBool true) blank_provider)
    as [Hscore Htotal].
  destruct Htotal as [out Hout].
  - unfold scoring_attrs_numeric. repeat constructor; intros s; vm_compute; discriminate.
  - exists out. split; [exact Hout | exact (Hscore out Hout)].
Defined.

(** The score of a record whose attributes all read as zero: only the safety
    component, (1 - 0) * 10 at weight 0.15, is left. *)
Lemma weighted_composite_zero (r : row) :
  scoring_attrs_zero r → weighted_composite r == 1.5.
Proof.
  intros [Hn Hf]. rewrite !Forall_cons in Hn. rewrite !Forall_cons in Hf.
  destruct Hn as ((e & He & He0) & (p & Hp & Hp0) & (c & Hc & Hc0)
                  & (k & Hk & Hk0) & _).
  destruct Hf as (Fc & Fb & Ft & _).
  unfold weighted_composite, attr. rewrite He, Hp, Hc, Hk, Fc, Fb, Ft.
  rewrite He0, Hp0, Hc0, Hk0. reflexivity.
Qed.

Lemma scoring_attrs_zero_numeric (r : row) :
  scoring_attrs_zero r → scoring_attrs_numeric r.
Proof.
  intros [Hn _]. unfold scoring_attrs_numeric.
  eapply Forall_impl; [exact Hn |].
  intros k (q & Hq & _) s Hs. unfold get_num, get in Hq.
  by rewrite Hs in Hq.
Qed.

Lemma zero_score_rounded (r : row) (s : Q) :
  scoring_attrs_zero r → calculate_quality_score r = Ok s →
  round1 s = round1 1.5.
Proof.
  intros Hz (_ & _ & Hs)%calculate_quality_score_Ok.
  apply round1_comp.
  eapply Qeq_trans; [exact Hs |].
  eapply Qeq_trans; [apply clamp_comp, (weighted_composite_zero r Hz) |].
  reflexivity.
Qed.

(** C3 (as the code has it). For every provider record whose scoring
    attributes are all absent, zero or false, the quality score is 1.5: the
    safety component of a zero risk rate contributes 10 * 0.15. *)
Theorem all_zero_quality_score (pref : value) (r : row) :
  scoring_attrs_zero r →
  ∃ out q, quality_row pref r = Ok out
    ∧ out !! "quality_score" = Some (VNum q) ∧ q == 1.5.
Proof.
  intros Hz.
  destruct (calculate_quality_score_total r (scoring_attrs_zero_numeric r Hz))
    as [s Hs].
  destruct (quality_row_score pref r s Hs) as (out & Hout & Hq).
  exists out, (round1 s). split; [exact Hout |]. split; [exact Hq |].
  rewrite (zero_score_rounded r s Hz Hs). reflexivity.
Qed.

Lemma all_zero_quality_score_witness :
  ∃ out q, quality_row (VBool false) ∅ = Ok out
    ∧ out !! "quality_score" = Some (VNum q) ∧ q == 1.5.
Proof.
  apply (all_zero_quality_score (VBool false) ∅).
  split; repeat constructor; by exists 0.
Defined.

(** C3 (as stated) fails: the all-zero, all-false record scores 1.5, not the
    floor 1. *)
Lemma all_zero_score_is_not_the_floor :
  ∃ out q, quality_row (VBool false) blank_provider = Ok out
    ∧ out !! "quality_score" = Some (VNum q) ∧ ¬ q == 1.
Proof.
  assert (scoring_attrs_zero blank_provider) as Hz
    by (split; repeat constructor; by exists 0).
  destruct (calculate_quality_score_total blank_provider
              (scoring_attrs_zero_numeric _ Hz)) as [s Hs].
  destruct (quality_row_score (VBool false) blank_provider s Hs)
    as (out & Hout & Hq).
  exists out, (round1 s). split; [exact Hout |]. split; [exact Hq |].
  rewrite (zero_score_rounded blank_provider s Hz Hs). by intros [=].
Qed.

Lemma quality_row_pref (p1 p2 : value) (r : row) :
  (λ out : row, (out !! "quality_score", out !! "benchmark_percent"))
    <$> quality_row p1 r
  = (λ out : row, (out !! "quality_score", out !! "benchmark_percent"))
    <$> quality_row p2 r.
Proof.
  unfold quality_row. rewrite !calculate_quality_score_pref.
  destruct (calculate_quality_score r) as [s|e]; simpl; [| done].
  by simplify_map_eq.
Qed.

Lemma mapM_scores (p1 p2 : value) (providers : frame) :
  scores <$> mapM (quality_row p1) providers
  = scores <$> mapM (quality_row p2) providers.
Proof.
  induction providers as [|r providers IH]; simpl; [done |].
  pose proof (quality_row_pref p1 p2 r) as Hr.
  destruct (quality_row p1 r) as [o1|e1], (quality_row p2 r) as [o2|e2];
    simpl in *; try congruence.
  destruct (mapM (quality_row p1) providers) as [l1|],
           (mapM (quality_row p2) providers) as [l2|];
    simpl in *; congruence.
Qed.

(** C8. The member's telehealth preference does not affect scoring: for the
    same provider list and two members that each state a preference (in
    particular two members differing only in it), [quality_model] yields the
    same quality_score and benchmark_percent for every provider, and fails on
    the same provider lists. *)
Theorem telehealth_preference_does_not_affect_scores
    (providers : frame) (m1 m2 : row) :
  is_Some (m1 !! "telehealth_preference") →
  is_Some (m2 !! "telehealth_preference") →
  scores <$> quality_model providers m1 = scores <$> quality_model providers m2.
Proof.
  intros [p1 H1] [p2 H2]. unfold quality_model, getitem. rewrite H1, H2.
  apply mapM_scores.
Qed.

Lemma telehealth_preference_does_not_affect_scores_witness :
  scores <$> quality_model [blank_provider]
               {[ "telehealth_preference" := VBool true ]}
  = scores <$> quality_model [blank_provider]
               {[ "telehealth_preference" := VBool false ]}.
Proof.
  apply telehealth_preference_does_not_affect_scores; by eexists.
Defined.

(** ** Ranker: specialty priority *)

(** C10. The primary-specialty check takes precedence: when the member's
    primary and secondary needs are the same string, a provider with that
    specialty gets priority 1; and the priority is always 1, 2 or 3. *)
Theorem primary_specialty_takes_precedence
    (primary secondary specialty : value) :
  ((∃ s, primary = VStr s ∧ secondary = VStr s ∧ specialty = VStr s) →
     specialty_priority primary secondary specialty = 1%Z)
  ∧ (specialty_priority primary secondary specialty = 1
     ∨ specialty_priority primary secondary specialty = 2
     ∨ specialty_priority primary secondary specialty = 3)%Z.
Proof.
  unfold specialty_priority. split.
  - intros (s & -> & -> & ->). simpl. by rewrite String.eqb_refl.
  - repeat case_match; auto.
Qed.

Lemma primary_specialty_takes_precedence_witness :
  specialty_priority (VStr "Cardiology") (VStr "Cardiology") (VStr "Cardiology")
  = 1%Z.
Proof.
  apply (primary_specialty_takes_precedence
           (VStr "Cardiology") (VStr "Cardiology") (VStr "Cardiology")).
  by exists "Cardiology".
Defined.

(** ** CostModel *)

Lemma coverage_map_lookup (s : string) (x : Q) :
  coverage_map !! s = Some x ↔
  (s = "PPO" ∧ x = 0.85) ∨ (s = "HMO" ∧ x = 0.75) ∨ (s = "EPO" ∧ x = 0.65).
Proof.
  unfold coverage_map.
  rewrite !lookup_insert_Some, lookup_singleton_Some. split.
  - intros [[<- <-] | [_ [[<- <-] | [_ [<- <-]]]]]; auto.
  - intros [[-> ->] | [[-> ->] | [-> ->]]]; [by left | right | right].
    + split; [done | by left].
    + split; [done | right; by split].
Qed.

Lemma visits_map_lookup (s : string) (x : Q) :
  visits_map !! s = Some x ↔
  (s = "Low" ∧ x = 2) ∨ (s = "Medium" ∧ x = 5) ∨ (s = "High" ∧ x = 10).
Proof.
  unfold visits_map.
  rewrite !lookup_insert_Some, lookup_singleton_Some. split.
  - intros [[<- <-] | [_ [[<- <-] | [_ [<- <-]]]]]; auto.
  - intros [[-> ->] | [[-> ->] | [-> ->]]]; [by left | right | right].
    + split; [done | by left].
    + split; [done | right; by split].
Qed.

Lemma visits_cases (member : row) :
  visits member = 2 ∨ visits member = 5 ∨ visits member = 10.
Proof.
  unfold visits, table_get. destruct (get member _ _) as [q|b|s]; auto.
  destruct (visits_map !! s) as [x|] eqn:E; auto.
  apply visits_map_lookup in E as [[_ ->] | [[_ ->] | [_ ->]]]; auto.
Qed.

Lemma visits_positive (member : row) : 0 < visits member.
Proof. destruct (visits_cases member) as [-> | [-> | ->]]; lra. Qed.

Lemma coverage_share_absent (member : row) :
  member !! "coverage_plan" = None → coverage_share member = 0.85.
Proof. intros H. unfold coverage_share, get. by rewrite H. Qed.

Lemma coverage_share_unknown (member : row) (v : value) :
  member !! "coverage_plan" = Some v →
  v ≠ VStr "PPO" → v ≠ VStr "HMO" → v ≠ VStr "EPO" →
  coverage_share member = 0.6.
Proof.
  intros H H1 H2 H3. unfold coverage_share, get, table_get. rewrite H.
  destruct v as [q|b|s]; try done.
  destruct (coverage_map !! s) as [x|] eqn:E; [| done].
  apply coverage_map_lookup in E as [[-> _] | [[-> _] | [-> _]]]; done.
Qed.

Lemma visits_absent (member : row) :
  member !! "risk_level" = None → visits member = 5.
Proof. intros H. unfold visits, get. by rewrite H. Qed.

Lemma visits_unknown (member : row) (v : value) :
  member !! "risk_level" = Some v →
  v ≠ VStr "Low" → v ≠ VStr "Medium" → v ≠ VStr "High" →
  visits member = 5.
Proof.
  intros H H1 H2 H3. unfold visits, get, table_get. rewrite H.
  destruct v as [q|b|s]; try done.
  destruct (visits_map !! s) as [x|] eqn:E; [| done].
  apply visits_map_lookup in E as [[-> _] | [[-> _] | [-> _]]]; done.
Qed.

Lemma calculate_quality_score_defaults (r : row) :
  calculate_quality_score r = calculate_quality_score (r ∪ scoring_defaults).
Proof.
  unfold calculate_quality_score, get_num, get_flag.
  by rewrite !get_union_default.
Qed.

Lemma calculate_payment_defaults (provider member : row) :
  calculate_payment provider member
  = calculate_payment (provider ∪ provider_defaults) (member ∪ member_defaults).
Proof.
  unfold calculate_payment, adj_cost, wait_penalty, coverage_share, visits,
    get_num.
  by rewrite !get_union_default.
Qed.

Lemma calculate_payment_Ok (provider member : row) (payment share : Q) :
  calculate_payment provider member = Ok (payment, share) ↔
  ∃ sc ey w e inv,
    get_num provider "service_cost" 0 = Ok sc
    ∧ get_num provider "experience_years" 0 = Ok ey
    ∧ get_num provider "wait_time_days" 0 = Ok w
    ∧ get_num member "expected_wait_time_days" 5 = Ok e
    ∧ get_num member "invested_amount" 0 = Ok inv
    ∧ payment =
        py_max
          ((sc * (1 + 0.01 * ey) * coverage_share member - 0.2 * inv)
           * visits member * (1 + 0.01 * py_max 0 (w - e)))
          (0.2 * (sc * (1 + 0.01 * ey)) * visits member)
    ∧ share = 0.2 * inv.
Proof.
  unfold calculate_payment, adj_cost, wait_penalty. split.
  - intros H. inv_bind H. inv_bind Ha. inv_bind Ha. apply Ok_inj in Ha as <-.
    inv_bind H. inv_bind Ha. inv_bind Ha. apply Ok_inj in Ha as <-.
    inv_bind H. apply Ok_inj in H. apply pair_equal_spec in H as [<- <-].
    repeat eexists; eauto.
  - intros (sc & ey & w & e & inv & -> & -> & -> & -> & -> & -> & ->). done.
Qed.

Lemma calculate_payment_total (provider member : row) :
  pricing_attrs_numeric provider member →
  ∃ p, calculate_payment provider member = Ok p.
Proof.
  intros [Hp Hm]. rewrite !Forall_cons in Hp. rewrite !Forall_cons in Hm.
  destruct Hp as (Hsc & Hey & Hw & _). destruct Hm as (He & Hinv & _).
  destruct (get_num_total _ _ 0 Hsc) as [sc Esc].
  destruct (get_num_total _ _ 0 Hey) as [ey Eey].
  destruct (get_num_total _ _ 0 Hw) as [w Ew].
  destruct (get_num_total _ _ 5 He) as [e Ee].
  destruct (get_num_total _ _ 0 Hinv) as [inv Einv].
  eexists (_, _). apply calculate_payment_Ok.
  exists sc, ey, w, e, inv. eauto 10.
Qed.

(** C2 (as the code has it). Scoring and pricing fall back to a default for
    every absent field and never fail on one: absent scoring attributes,
    absent provider cost attributes and an absent invested_amount count as 0
    (false for flags); an absent expected_wait_time_days counts as 5, an
    absent coverage_plan as PPO (share 0.85) and an absent risk_level as
    Medium (5 visits).  A coverage_plan that is present but outside
    PPO/HMO/EPO gives share 0.6, a risk_level outside Low/Medium/High gives 5
    visits. *)
Theorem absent_fields_fall_back_to_defaults (r provider member : row) :
  calculate_quality_score r = calculate_quality_score (r ∪ scoring_defaults)
  ∧ calculate_payment provider member
    = calculate_payment (provider ∪ provider_defaults) (member ∪ member_defaults)
  ∧ (scoring_attrs_numeric r → ∃ s, calculate_quality_score r = Ok s)
  ∧ (pricing_attrs_numeric provider member →
       ∃ p, calculate_payment provider member = Ok p)
  ∧ (member !! "coverage_plan" = None → coverage_share member = 0.85)
  ∧ (∀ v, member !! "coverage_plan" = Some v →
       v ≠ VStr "PPO" → v ≠ VStr "HMO" → v ≠ VStr "EPO" →
       coverage_share member = 0.6)
  ∧ (member !! "risk_level" = None → visits member = 5)
  ∧ (∀ v, member !! "risk_level" = Some v →
       v ≠ VStr "Low" → v ≠ VStr "Medium" → v ≠ VStr "High" →
       visits member = 5).
Proof.
  split; [apply calculate_quality_score_defaults |].
  split; [apply calculate_payment_defaults |].
  split; [apply calculate_quality_score_total |].
  split; [apply calculate_payment_total |].
  split; [apply coverage_share_absent |].
  split; [apply coverage_share_unknown |].
  split; [apply visits_absent | apply visits_unknown].
Qed.

Lemma absent_fields_fall_back_to_defaults_witness :
  (∃ s, calculate_quality_score ∅ = Ok s)
  ∧ (∃ p, calculate_payment ∅ ∅ = Ok p)
  ∧ coverage_share ∅ = 0.85
  ∧ coverage_share {[ "coverage_plan" := VStr "POS" ]} = 0.6
  ∧ visits ∅ = 5
  ∧ visits {[ "risk_level" := VStr "Extreme" ]} = 5.
Proof.
  destruct (absent_fields_fall_back_to_defaults ∅ ∅ ∅)
    as (_ & _ & Hs & Hp & Hc & _ & Hv & _).
  destruct (absent_fields_fall_back_to_defaults ∅ ∅
              {[ "coverage_plan" := VStr "POS" ]})
    as (_ & _ & _ & _ & _ & Hc' & _ & _).
  destruct (absent_fields_fall_back_to_defaults ∅ ∅
              {[ "risk_level" := VStr "Extreme" ]})
    as (_ & _ & _ & _ & _ & _ & _ & Hv').
  split; [apply Hs; repeat constructor; by intros s |].
  split; [apply Hp; split; repeat constructor; by intros s |].
  split; [by apply Hc |].
  split; [by apply (Hc' (VStr "POS")) |].
  split; [by apply Hv |].
  by apply (Hv' (VStr "Extreme")).
Defined.

(** C2 (as stated) fails on two member fields: with no expected wait time a
    three-day wait is not penalised, as it would be against an expectation of
    0, and with no coverage plan the share is 0.85, not 0.6. *)
Lemma absent_member_fields_are_not_zero :
  wait_penalty {[ "wait_time_days" := VNum 3 ]} ∅ = Ok 1.00
  ∧ wait_penalty {[ "wait_time_days" := VNum 3 ]}
      {[ "expected_wait_time_days" := VNum 0 ]} = Ok 1.03
  ∧ ¬ 1.00 == 1.03
  ∧ coverage_share ∅ = 0.85
  ∧ ¬ coverage_share ∅ == 0.6.
Proof.
  split; [reflexivity |]. split; [reflexivity |]. split; [by intros [=] |].
  split; [reflexivity |]. by intros [=].
Qed.

(** C4. For nonnegative service cost and experience, the insurance payment is
    at least min_payment = 0.2 * adjusted_cost * visits and is not negative,
    whatever the coverage plan, risk level, wait times and invested amount;
    and the payment is computed as soon as the remaining numeric fields hold
    numbers where present. *)
Theorem payment_at_least_minimum
    (provider member : row) (service_cost experience_years : Q) :
  get_num provider "service_cost" 0 = Ok service_cost →
  get_num provider "experience_years" 0 = Ok experience_years →
  0 <= service_cost → 0 <= experience_years →
  (∀ payment share,
     calculate_payment provider member = Ok (payment, share) →
     0.2 * (service_cost * (1 + 0.01 * experience_years)) * visits member
       <= payment
     ∧ 0 <= payment)
  ∧ (numeric_or_absent provider "wait_time_days" →
     numeric_or_absent member "expected_wait_time_days" →
     numeric_or_absent member "invested_amount" →
     ∃ payment share, calculate_payment provider member = Ok (payment, share)).
Proof.
  intros Hsc Hey Hsc0 Hey0. split.
  - intros payment share
      (sc & ey & w & e & inv & Esc & Eey & _ & _ & _ & -> & _)%calculate_payment_Ok.
    rewrite Hsc in Esc. rewrite Hey in Eey.
    injection Esc as <-. injection Eey as <-.
    match goal with |- _ <= py_max ?a ?b ∧ _ =>
      pose proof (py_max_lower a b) as [_ Hmin] end.
    split; [exact Hmin |].
    eapply Qle_trans; [| exact Hmin].
    pose proof (visits_positive member).
    apply Qmult_le_0_compat; [| lra].
    apply Qmult_le_0_compat; [lra |].
    apply Qmult_le_0_compat; lra.
  - intros Hw He Hinv.
    destruct (get_num_total _ _ 0 Hw) as [w Ew].
    destruct (get_num_total _ _ 5 He) as [e Ee].
    destruct (get_num_total _ _ 0 Hinv) as [inv Einv].
    eexists _, _. apply calculate_payment_Ok.
    exists service_cost, experience_years, w, e, inv. eauto 10.
Qed.

Lemma payment_at_least_minimum_witness :
  ∃ payment share,
    calculate_payment
      {[ "service_cost" := VNum 100; "experience_years" := VNum 10 ]} ∅
    = Ok (payment, share)
    ∧ 0.2 * (100 * (1 + 0.01 * 10)) * visits ∅ <= payment
    ∧ 0 <= payment.
Proof.
  destruct (payment_at_least_minimum
              {[ "service_cost" := VNum 100; "experience_years" := VNum 10 ]}
              ∅ 100 10) as [Hbound Htotal];
    [reflexivity | reflexivity | lra | lra |].
  destruct Htotal as (payment & share & H); [by intros s ..|].
  exists payment, share. split; [exact H | exact (Hbound payment share H)].
Defined.

(** ** Ranker: the sort *)

Lemma key_leb_total (a b : sort_key) : key_leb a b = false → key_leb b a = true.
Proof.
  unfold key_leb. repeat destruct (Qlt_le_dec _ _); try done; try lra.
  intros H. apply Qle_bool_iff.
  destruct (Qle_bool (key_payment a) (key_payment b)) eqn:E; [done |].
  destruct (Qlt_le_dec (key_payment b) (key_payment a)) as [|H']; [lra |].
  apply Qle_bool_iff in H'. congruence.
Qed.

Lemma key_leb_key_le (a b : sort_key) : key_leb a b = true → key_le a b.
Proof.
  unfold key_leb, key_le.
  repeat destruct (Qlt_le_dec _ _); try done; intros H; auto.
  - right. left. split; [lra | done].
  - right. right. left. repeat split; [lra | lra | done].
  - apply Qle_bool_iff in H. right. right. right. repeat split; [lra ..| done].
Qed.

Lemma key_eqb_leb (k a b : sort_key) :
  key_eqb k a = true → key_eqb k b = true → key_leb a b = true.
Proof.
  unfold key_eqb, key_leb. rewrite !andb_true_iff, !Qeq_bool_iff.
  intros (((Ea & Eb) & Ec) & Ed) (((Fa & Fb) & Fc) & Fd).
  repeat destruct (Qlt_le_dec _ _); try done; try lra.
  apply Qle_bool_iff. lra.
Qed.

Lemma insert_row_HdRel (x a : sort_key * row) (l : list (sort_key * row)) :
  key_leb a.1 x.1 = true →
  HdRel (λ x y, key_leb x.1 y.1 = true) a l →
  HdRel (λ x y, key_leb x.1 y.1 = true) a (insert_row x l).
Proof.
  intros Hax Hl. destruct l as [|y l]; simpl; [by constructor |].
  destruct (key_leb x.1 y.1); constructor; [done |].
  by inversion Hl.
Qed.

Lemma insert_row_sorted (x : sort_key * row) (l : list (sort_key * row)) :
  keys_sorted l → keys_sorted (insert_row x l).
Proof.
  induction 1 as [|y l Hl IH Hy]; simpl.
  - repeat constructor.
  - destruct (key_leb x.1 y.1) eqn:E.
    + constructor; [by constructor | by constructor].
    + constructor; [exact IH |].
      apply insert_row_HdRel; [by apply key_leb_total | done].
Qed.

Lemma sort_rows_sorted (l : list (sort_key * row)) : keys_sorted (sort_rows l).
Proof.
  induction l as [|x l IH]; simpl; [constructor | by apply insert_row_sorted].
Qed.

Lemma insert_row_Permutation (x : sort_key * row) (l : list (sort_key * row)) :
  insert_row x l ≡ₚ x :: l.
Proof.
  induction l as [|y l IH]; simpl; [done |].
  destruct (key_leb x.1 y.1); [done |]. rewrite IH. apply perm_swap.
Qed.

Lemma sort_rows_Permutation (l : list (sort_key * row)) : sort_rows l ≡ₚ l.
Proof.
  induction l as [|x l IH]; simpl; [done |].
  by rewrite insert_row_Permutation, IH.
Qed.

Lemma filter_cons_bool {A : Type} (f : A → bool) (x : A) (l : list A) :
  List.filter f (x :: l)
  = if f x then x :: List.filter f l else List.filter f l.
Proof. reflexivity. Qed.

(** Rows with equal keys are not reordered. *)
Lemma insert_row_stable (k : sort_key) (x : sort_key * row)
    (l : list (sort_key * row)) :
  List.filter (λ y, key_eqb k y.1) (insert_row x l)
  = List.filter (λ y, key_eqb k y.1) (x :: l).
Proof.
  induction l as [|y l IH]; [done |]. simpl insert_row.
  destruct (key_leb x.1 y.1) eqn:E; [done |].
  rewrite (filter_cons_bool _ y), IH, !filter_cons_bool.
  destruct (key_eqb k x.1) eqn:Ex, (key_eqb k y.1) eqn:Ey; try done.
  rewrite (key_eqb_leb k x.1 y.1 Ex Ey) in E. done.
Qed.

Lemma sort_rows_stable (k : sort_key) (l : list (sort_key * row)) :
  List.filter (λ y, key_eqb k y.1) (sort_rows l)
  = List.filter (λ y, key_eqb k y.1) l.
Proof.
  induction l as [|x l IH]; [done |]. simpl sort_rows.
  by rewrite insert_row_stable, !filter_cons_bool, IH.
Qed.

Lemma mapM_keyed (df : frame) (rows : list (sort_key * row)) :
  mapM keyed df = Ok rows → well_keyed rows ∧ rows.*2 = df.
Proof.
  intros H%mapM_Ok. induction H as [|r x df rows Hx _ [IH1 IH2]].
  - split; [constructor | done].
  - unfold keyed in Hx. inv_bind Hx. injection Hx as <-.
    split; [by constructor | simpl; by f_equal].
Qed.

Lemma well_keyed_filter (k : sort_key) (l : list (sort_key * row)) :
  well_keyed l →
  List.filter (has_key k) (l.*2) = (List.filter (λ y, key_eqb k y.1) l).*2.
Proof.
  induction 1 as [|x l Hx _ IH]; [done |].
  rewrite fmap_cons, !filter_cons_bool, IH.
  unfold has_key at 1. rewrite Hx. by destruct (key_eqb k x.1).
Qed.

Lemma well_keyed_sorted (l : list (sort_key * row)) :
  well_keyed l → keys_sorted l → Sorted row_le (l.*2).
Proof.
  intros Hk Hs. induction Hs as [|x l Hl IH Hx]; simpl; [constructor |].
  inversion Hk as [|? ? Kx Kl]; subst.
  constructor; [by apply IH |].
  destruct Hx as [|y l Hxy]; simpl; constructor.
  inversion Kl; subst.
  exists x.1, y.1. split; [done |]. split; [done |]. by apply key_leb_key_le.
Qed.


Lemma filter_take_prefix {A : Type} (f : A → bool) (n : nat) (l : list A) :
  List.filter f (take n l) `prefix_of` List.filter f l.
Proof.
  exists (List.filter f (drop n l)).
  by rewrite <- List.filter_app, take_drop.
Qed.

Lemma sort_values_Ok (df out : frame) :
  sort_values df = Ok out ↔
  ∃ rows, mapM keyed df = Ok rows ∧ out = (sort_rows rows).*2.
Proof.
  unfold sort_values. split.
  - intros H. inv_bind H. injection H as <-. eauto.
  - intros (rows & -> & ->). done.
Qed.

Lemma rank_Ok (final_df : frame) (member : row) (top_n : nat) (out : frame) :
  rank_with_specialty_priority final_df member top_n = Ok out ↔
  ∃ df rows, assign_priority final_df member = Ok df
    ∧ mapM keyed df = Ok rows
    ∧ out = take top_n ((sort_rows rows).*2).
Proof.
  unfold rank_with_specialty_priority. split.
  - intros H. inv_bind H. inv_bind H. injection H as <-.
    apply sort_values_Ok in Ha0 as (rows & Hrows & ->). eauto.
  - intros (df & rows & -> & Hrows & ->). simpl.
    assert (sort_values df = Ok (sort_rows rows).*2) as ->
      by (apply sort_values_Ok; eauto).
    done.
Qed.

Lemma assign_priority_Ok (final_df df : frame) (member : row) :
  assign_priority final_df member = Ok df ↔
  ∃ primary secondary,
    member !! "primary_specialty_needed" = Some primary
    ∧ member !! "secondary_specialty_needed" = Some secondary
    ∧ Forall2 (λ r r', set_priority primary secondary r = Ok r') final_df df.
Proof.
  unfold assign_priority, getitem. split.
  - intros H.
    destruct (member !! "primary_specialty_needed") as [p|]; [| done].
    destruct (member !! "secondary_specialty_needed") as [s|]; [| done].
    simpl in H. apply mapM_Ok in H. eauto.
  - intros (p & s & -> & -> & H). simpl. by apply mapM_Ok.
Qed.

Lemma set_priority_Ok (primary secondary : value) (r r' : row) :
  set_priority primary secondary r = Ok r' →
  ∃ p, r' = <["specialty_priority" := p]> r.
Proof.
  unfold set_priority. intros H. inv_bind H. apply Ok_inj in H as <-. eauto.
Qed.

Lemma set_priority_rankable (primary secondary : value) (r : row) :
  rankable r →
  ∃ r', set_priority primary secondary r = Ok r'
    ∧ ∃ kr, keyed r' = Ok kr.
Proof.
  intros [[s Hs] Hc]. rewrite !Forall_cons in Hc.
  destruct Hc as ((q & Hq) & (d & Hd) & (c & Hc) & _).
  unfold set_priority, getitem. rewrite Hs. simpl.
  eexists. split; [done |].
  unfold keyed, sort_key_of, column_num, getitem in *.
  rewrite lookup_insert_eq. simpl.
  rewrite !lookup_insert_ne by done.
  destruct (r !! "quality_score") as [vq|]; [| done]. simpl in Hq |- *.
  rewrite Hq. simpl.
  destruct (r !! "distance_miles") as [vd|]; [| done]. simpl in Hd |- *.
  rewrite Hd. simpl.
  destruct (r !! "insurance_payment") as [vc|]; [| done]. simpl in Hc |- *.
  rewrite Hc. simpl. eauto.
Qed.

Lemma rank_total (final_df : frame) (member : row) (top_n : nat) :
  is_Some (member !! "primary_specialty_needed") →
  is_Some (member !! "secondary_specialty_needed") →
  Forall rankable final_df →
  ∃ out, rank_with_specialty_priority final_df member top_n = Ok out.
Proof.
  intros [p Hp] [s Hs] Hdf.
  assert (∃ df rows, Forall2 (λ r r', set_priority p s r = Ok r') final_df df
                     ∧ mapM keyed df = Ok rows) as (df & rows & Hdf' & Hrows).
  { induction Hdf as [|r l Hr _ (df & rows & IH1 & IH2)].
    - exists [], []. split; [constructor | done].
    - destruct (set_priority_rankable p s r Hr) as (r' & Hr' & kr & Hkr).
      exists (r' :: df), (kr :: rows). split; [by constructor |].
      simpl. rewrite Hkr. simpl. rewrite IH2. done. }
  eexists. apply rank_Ok. exists df, rows.
  split; [apply assign_priority_Ok; eauto | done].
Qed.


(** C1. The Ranker's sort is stable: the rows of the output that are equal on
    all four sort keys stand in the order they had in the input (the output
    rows being the input rows with the priority column set), so among equal
    rows the output holds the first ones of the input, in input order; with
    no truncation it holds all of them. *)
Theorem ranker_sort_is_stable
    (final_df : frame) (member : row) (top_n : nat) (out : frame) :
  rank_with_specialty_priority final_df member top_n = Ok out →
  ∃ df, assign_priority final_df member = Ok df
    ∧ Forall2 (λ r r', ∃ p, r' = <["specialty_priority" := p]> r) final_df df
    ∧ (∀ k, List.filter (has_key k) out `prefix_of` List.filter (has_key k) df)
    ∧ ((length final_df <= top_n)%nat →
       ∀ k, List.filter (has_key k) out = List.filter (has_key k) df).
Proof.
  intros (df & rows & Hdf & Hrows & ->)%rank_Ok.
  exists df. split; [done |].
  pose proof Hdf as (p & s & _ & _ & Hset)%assign_priority_Ok.
  split.
  { eapply Forall2_impl; [exact Hset |]. intros r r' H.
    exact (set_priority_Ok p s r r' H). }
  pose proof Hrows as [Hk Hsnd]%mapM_keyed.
  assert (∀ k, List.filter (has_key k) ((sort_rows rows).*2)
               = List.filter (has_key k) df) as Hstable.
  { intros k. rewrite well_keyed_filter, sort_rows_stable.
    - by rewrite <- well_keyed_filter, Hsnd.
    - unfold well_keyed. by rewrite sort_rows_Permutation. }
  split.
  - intros k. rewrite <- Hstable. apply filter_take_prefix.
  - intros Hn k. rewrite <- Hstable. f_equal. apply take_ge.
    rewrite length_fmap, (Permutation_length (sort_rows_Permutation rows)).
    apply mapM_length in Hrows. rewrite Hrows, <- (Forall2_length _ _ _ Hset).
    done.
Qed.

(** ** GeoFilter *)

Section GeoFilter.

Variable great_circle : value * value → value * value → result Q.

Abbreviation distance := (provider_distance great_circle).
Abbreviation geo := (find_providers_in_radius great_circle).

Lemma geo_step_Ok (lat lon maxv : value) (limit d : Q) (acc : frame) (p : row) :
  to_num maxv = Ok limit → distance lat lon p = Ok d →
  geo_step great_circle lat lon maxv acc p
  = Ok (acc ++ within_radius provider_data limit [(p, d)])%list.
Proof.
  intros Hl Hd. unfold geo_step, within_radius. rewrite Hd. simpl.
  rewrite Hl. simpl.
  destruct (Qle_bool d limit); simpl; [done | by rewrite app_nil_r].
Qed.

Lemma geo_loop_Ok (lat lon maxv : value) (limit : Q) (df : frame)
    (dists : list Q) (acc : frame) :
  to_num maxv = Ok limit →
  Forall2 (λ p d, distance lat lon p = Ok d) df dists →
  geo_loop great_circle lat lon maxv acc df
  = Ok (acc ++ within_radius provider_data limit (zip df dists))%list.
Proof.
  intros Hl H. revert acc.
  induction H as [|p d df dists Hd _ IH]; intros acc; simpl.
  - unfold within_radius. simpl. by rewrite app_nil_r.
  - rewrite (geo_step_Ok lat lon maxv limit d acc p Hl Hd). simpl.
    rewrite IH. f_equal. rewrite <- app_assoc. f_equal.
    unfold within_radius. simpl.
    destruct (Qle_bool d limit); done.
Qed.

Lemma provider_data_fields (p : row) (d : Q) :
  provider_data p d !! "distance_km" = Some (VNum d)
  ∧ provider_data p d !! "distance_miles" = Some (VNum (d * 0.621371))
  ∧ provider_data p d !! "drive_time_minutes" = Some (VNum (d / 50 * 60)).
Proof. unfold provider_data. by simplify_map_eq. Qed.

Lemma elem_of_within_radius (limit : Q) (l : list (row * Q)) (r : row) :
  r ∈ within_radius provider_data limit l ↔
  ∃ p d, (p, d) ∈ l ∧ d <= limit ∧ r = provider_data p d.
Proof.
  unfold within_radius. rewrite list_elem_of_fmap. split.
  - intros ([p d] & -> & H). apply list_elem_of_In, List.filter_In in H as [H1 H2].
    exists p, d. split; [by apply list_elem_of_In |].
    split; [by apply Qle_bool_iff | done].
  - intros (p & d & H & Hd & ->). exists (p, d). split; [done |].
    apply list_elem_of_In, List.filter_In. split; [by apply list_elem_of_In |].
    by apply Qle_bool_iff.
Qed.

(** C7. When every provider has a distance from the member, the GeoFilter
    returns a list that holds a provider exactly when its distance is at most
    the limit (a provider at the limit is kept), and every kept row carries
    distance_km, distance_miles = distance_km * 0.621371 and
    drive_time_minutes = (distance_km / 50) * 60 = distance_km * 1.2. *)
Theorem geo_filter_keeps_within_radius
    (lat lon maxv : value) (limit : Q) (df : frame) (dists : list Q) :
  to_num maxv = Ok limit →
  Forall2 (λ p d, distance lat lon p = Ok d) df dists →
  ∃ out, geo lat lon df maxv = Ok out
    ∧ (∀ p d, (p, d) ∈ zip df dists → (provider_data p d ∈ out ↔ d <= limit))
    ∧ (∀ r, r ∈ out →
         ∃ p d miles minutes,
           (p, d) ∈ zip df dists ∧ r = provider_data p d
           ∧ r !! "distance_km" = Some (VNum d)
           ∧ r !! "distance_miles" = Some (VNum miles)
           ∧ miles == d * 0.621371
           ∧ r !! "drive_time_minutes" = Some (VNum minutes)
           ∧ minutes == d / 50 * 60 ∧ minutes == d * 1.2).
Proof.
  intros Hl Hd. eexists. split.
  { unfold find_providers_in_radius. by apply (geo_loop_Ok _ _ _ limit _ dists). }
  simpl. split.
  - intros p d Hpd. rewrite elem_of_within_radius. split.
    + intros (p' & d' & _ & Hle & E).
      pose proof (provider_data_fields p d) as (Hk & _).
      pose proof (provider_data_fields p' d') as (Hk' & _).
      rewrite E in Hk. rewrite Hk' in Hk. by injection Hk as ->.
    + intros Hle. by exists p, d.
  - intros r (p & d & Hpd & _ & ->)%elem_of_within_radius.
    destruct (provider_data_fields p d) as (Hk & Hm & Ht).
    exists p, d, (d * 0.621371), (d / 50 * 60).
    repeat (split; [done |]). field.
Qed.

End GeoFilter.

(** ** The stages on records that meet the data contract *)

Lemma mapM_total_inv {A B : Type} (f : A → result B)
    (P : A → Prop) (R : B → Prop) (l : list A) :
  (∀ a, P a → ∃ b, f a = Ok b ∧ R b) →
  Forall P l → ∃ l', mapM f l = Ok l' ∧ Forall R l'.
Proof.
  intros Hf. induction 1 as [|a l Ha _ (l' & Hl' & HR)]; simpl.
  - exists []. by split.
  - destruct (Hf a Ha) as (b & -> & Hb). simpl. rewrite Hl'. simpl.
    exists (b :: l'). split; [done | by constructor].
Qed.

Ltac not_listed :=
  repeat (apply not_elem_of_cons; split; [done |]); apply not_elem_of_nil.

Lemma numeric_or_absent_insert_ne (r : row) (k k' : string) (v : value) :
  k ≠ k' → numeric_or_absent r k' → numeric_or_absent (<[k := v]> r) k'.
Proof. intros Hne H s. rewrite lookup_insert_ne by done. apply H. Qed.

Lemma provider_complete_insert (r : row) (k : string) (v : value) :
  k ∉ ["specialty"; "experience_years"; "patient_rating"; "CMS_quality_score";
       "risk_rate"; "service_cost"; "wait_time_days"] →
  provider_complete r → provider_complete (<[k := v]> r).
Proof.
  intros Hk [Hs Hn]. rewrite !not_elem_of_cons in Hk.
  destruct Hk as (? & ? & ? & ? & ? & ? & ? & _).
  split; [by rewrite lookup_insert_ne |].
  rewrite !Forall_cons in Hn. destruct Hn as (? & ? & ? & ? & ? & ? & _).
  repeat constructor; by apply numeric_or_absent_insert_ne.
Qed.

Lemma provider_data_located (p : row) (d : Q) :
  provider_complete p → located (provider_data p d).
Proof.
  intros Hp. unfold provider_data. split.
  - repeat apply provider_complete_insert; try done; not_listed.
  - repeat constructor. eexists.
    rewrite lookup_insert_ne by done. apply lookup_insert_eq.
Qed.

Lemma provider_complete_scoring (r : row) :
  provider_complete r → scoring_attrs_numeric r.
Proof.
  intros [_ Hn]. rewrite !Forall_cons in Hn.
  destruct Hn as (? & ? & ? & ? & _). by repeat constructor.
Qed.

Lemma quality_row_scored (pref : value) (r : row) :
  located r → ∃ out, quality_row pref r = Ok out ∧ scored out.
Proof.
  intros [Hp Hd]. unfold has_numbers in Hd. rewrite !Forall_cons in Hd.
  destruct Hd as ((q & Hq) & _).
  destruct (calculate_quality_score_total r (provider_complete_scoring r Hp))
    as [s Hs].
  eexists. split; [apply quality_row_Ok; eauto |]. split.
  - repeat apply provider_complete_insert; try done; not_listed.
  - repeat constructor.
    + exists q. by rewrite !lookup_insert_ne.
    + eexists. rewrite lookup_insert_ne by done. apply lookup_insert_eq.
Qed.

Lemma cost_row_priced (member r : row) :
  Forall (numeric_or_absent member)
    ["expected_wait_time_days"; "invested_amount"] →
  scored r → ∃ out, cost_row member r = Ok out ∧ priced out.
Proof.
  intros Hm [[Hs Hn] Hc]. unfold has_numbers in Hc.
  rewrite !Forall_cons in Hn. rewrite !Forall_cons in Hc.
  destruct Hn as (He & _ & _ & _ & Hsc & Hw & _).
  destruct Hc as ((d & Hd) & (q & Hq) & _).
  destruct (calculate_payment_total r member) as [[payment share] Hpay].
  { split; [by repeat constructor | done]. }
  unfold cost_row. rewrite Hpay. simpl. eexists. split; [done |]. split.
  - by rewrite !lookup_insert_ne.
  - repeat constructor.
    + exists q. by rewrite !lookup_insert_ne.
    + exists d. by rewrite !lookup_insert_ne.
    + eexists. rewrite lookup_insert_ne by done. apply lookup_insert_eq.
Qed.

Lemma rename_column_other (old new k : string) (r : row) :
  k ≠ old → k ≠ new → rename_column old new r !! k = r !! k.
Proof.
  intros Ho Hn. unfold rename_column. destruct (r !! old); [| done].
  by rewrite lookup_insert_ne, lookup_delete_ne.
Qed.

Lemma rename_column_priced (r : row) :
  priced r → priced (rename_column "provider_name" "name" r).
Proof.
  intros [Hs Hc]. unfold has_numbers in Hc. rewrite !Forall_cons in Hc.
  destruct Hc as (Hq & Hd & Hp & _).
  split; [by rewrite rename_column_other |].
  repeat constructor; by rewrite rename_column_other.
Qed.

Lemma cost_model_priced (member : row) (df : frame) :
  Forall (numeric_or_absent member)
    ["expected_wait_time_days"; "invested_amount"] →
  Forall scored df → ∃ out, cost_model df member = Ok out ∧ Forall priced out.
Proof.
  intros Hm Hdf.
  destruct (mapM_total_inv (cost_row member) scored priced df) as (out & Hout & Hp);
    [intros r; by apply cost_row_priced | done |].
  unfold cost_model. rewrite Hout. simpl.
  destruct (negb _ && _); eexists; (split; [done |]); [| done].
  apply Forall_fmap. eapply Forall_impl; [exact Hp |].
  intros r. apply rename_column_priced.
Qed.

Lemma priced_rankable (r : row) : priced r → rankable r.
Proof.
  intros [Hs Hc]. split; [done |]. eapply Forall_impl; [exact Hc |].
  intros c [q Hq]. exists q. unfold column_num, getitem. by rewrite Hq.
Qed.

(** ** The request handler *)

Section Handler.

Variable great_circle : value * value → value * value → result Q.

Abbreviation distance := (provider_distance great_circle).
Abbreviation api := (find_providers_api great_circle).

Lemma select_eq_none (df : frame) (member_id : value) :
  Forall (other_member member_id) df →
  select_eq df "member_id" member_id = Ok [].
Proof.
  induction 1 as [|r df (v & Hv & Hne) _ IH]; simpl; [done |].
  unfold getitem. rewrite Hv. simpl. rewrite IH. simpl. by rewrite Hne.
Qed.

Lemma select_eq_total (df : frame) (member_id : value) :
  Forall (λ r, is_Some (r !! "member_id")) df →
  ∃ rows, select_eq df "member_id" member_id = Ok rows.
Proof.
  induction 1 as [|r df [v Hv] _ [rows IH]]; simpl; [by eexists |].
  unfold getitem. rewrite Hv. simpl. rewrite IH. simpl. by eexists.
Qed.

Lemma select_eq_first (before after : frame) (member : row) (member_id v : value) :
  Forall (other_member member_id) before →
  member !! "member_id" = Some v → value_eqb v member_id = true →
  Forall (λ r, is_Some (r !! "member_id")) after →
  ∃ rest, select_eq (before ++ member :: after) "member_id" member_id
          = Ok (member :: rest).
Proof.
  intros Hb Hv Heq Ha.
  induction Hb as [|r df (w & Hw & Hne) _ [rest IH]]; simpl.
  - destruct (select_eq_total after member_id Ha) as [rows Hrows].
    unfold getitem. rewrite Hv. simpl. rewrite Hrows. simpl. rewrite Heq.
    by eexists.
  - unfold getitem. rewrite Hw. simpl. rewrite IH. simpl. rewrite Hne.
    by eexists.
Qed.

Lemma geo_loop_beyond (lat lon maxv : value) (limit : Q) (df acc : frame) :
  to_num maxv = Ok limit →
  Forall (λ p, ∃ d, distance lat lon p = Ok d ∧ limit < d) df →
  geo_loop great_circle lat lon maxv acc df = Ok acc.
Proof.
  intros Hl. induction 1 as [|p df (d & Hd & Hlt) _ IH]; simpl; [done |].
  unfold geo_step. rewrite Hd. simpl. rewrite Hl. simpl.
  destruct (Qle_bool d limit) eqn:E; [| exact IH].
  apply Qle_bool_iff in E. lra.
Qed.

Lemma empty_nil (df : frame) : empty df = true ↔ df = [].
Proof. by destruct df. Qed.

Lemma empty_cons (df : frame) : df ≠ [] → empty df = false.
Proof. by destruct df. Qed.

Lemma select_eq_subset (df rows : frame) (c : string) (v : value) :
  select_eq df c v = Ok rows → ∀ r, r ∈ rows → r ∈ df.
Proof.
  revert rows. induction df as [|r0 df IH]; intros rows H r Hr; simpl in H.
  - apply Ok_inj in H as <-. by apply not_elem_of_nil in Hr.
  - inv_bind H. inv_bind H. apply Ok_inj in H as <-.
    destruct (value_eqb a v).
    + apply elem_of_cons in Hr as [-> | Hr]; [left | right; by eapply IH].
    + right. by eapply IH.
Qed.

Lemma Forall_exists_Forall2 {A B : Type} (P : A → B → Prop) (l : list A) :
  Forall (λ a, ∃ b, P a b) l → ∃ l', Forall2 P l l'.
Proof.
  induction 1 as [|a l [b Hb] _ [l' Hl']]; [by exists [] |].
  exists (b :: l'). by constructor.
Qed.

Lemma geo_located (lat lon maxv : value) (limit : Q) (df : frame) :
  to_num maxv = Ok limit →
  Forall provider_complete df →
  Forall (λ p, ∃ d, distance lat lon p = Ok d) df →
  ∃ out, find_providers_in_radius great_circle lat lon df maxv = Ok out
    ∧ Forall located out.
Proof.
  intros Hl Hdf [dists Hd]%Forall_exists_Forall2.
  eexists. split.
  { unfold find_providers_in_radius. by apply (geo_loop_Ok _ _ _ _ limit _ dists). }
  simpl. apply Forall_forall.
  intros r (p & d & Hpd & _ & ->)%elem_of_within_radius.
  apply provider_data_located.
  rewrite Forall_forall in Hdf. apply Hdf. by eapply elem_of_zip_l.
Qed.

Lemma quality_model_scored (df : frame) (member : row) :
  is_Some (member !! "telehealth_preference") →
  Forall located df →
  ∃ out, quality_model df member = Ok out ∧ Forall scored out.
Proof.
  intros [pref Hpref] Hdf. unfold quality_model, getitem. rewrite Hpref. simpl.
  apply (mapM_total_inv (quality_row pref) located scored); [| done].
  intros r. apply quality_row_scored.
Qed.

(** On datasets that meet the data contract, and with a distance defined
    between every member and provider, the handler answers every request
    whose body is a JSON object. *)
Lemma api_total (members_df providers_df : frame) (d : row) :
  Forall member_complete members_df →
  Forall provider_complete providers_df →
  (∀ m lat lon, m ∈ members_df →
     m !! "latitude" = Some lat → m !! "longitude" = Some lon →
     Forall (λ p, ∃ d, distance lat lon p = Ok d) providers_df) →
  ∃ resp, api members_df providers_df (JsonObject d) = Ok resp.
Proof.
  intros Hm Hp Hdist. unfold find_providers_api. simpl.
  destruct (d !! "member_id") as [member_id|]; [| by eexists].
  destruct (negb (truthy member_id)); [by eexists |].
  destruct (empty members_df || empty providers_df); [by eexists |].
  destruct (select_eq_total members_df member_id) as [rows Hrows].
  { eapply Forall_impl; [exact Hm |]. intros m [Hk _].
    rewrite !Forall_cons in Hk. by destruct Hk as (? & _). }
  rewrite Hrows. simpl.
  destruct rows as [|member rest]; [by eexists |].
  assert (member ∈ members_df) as Hin
    by (eapply select_eq_subset; [exact Hrows | left]).
  rewrite Forall_forall in Hm. destruct (Hm member Hin) as [Hk Hn].
  rewrite !Forall_cons in Hk. rewrite !Forall_cons in Hn.
  destruct Hk as (_ & [lat Hlat] & [lon Hlon] & [max_km Hmax] & Hpref
                  & Hprim & Hsec & _).
  destruct Hn as (Hmaxn & Hwait & Hinv & _).
  unfold getitem at 1 2 3. rewrite Hlat, Hlon, Hmax. simpl.
  assert (∃ limit, to_num max_km = Ok limit) as [limit Hlimit].
  { destruct max_km as [q|b|s]; simpl; eauto. by destruct (Hmaxn s). }
  destruct (geo_located lat lon max_km limit providers_df Hlimit Hp
              (Hdist member lat lon Hin Hlat Hlon)) as (geo_df & -> & Hgeo).
  simpl. destruct (empty geo_df); [by eexists |].
  destruct (quality_model_scored geo_df member Hpref Hgeo)
    as (quality_df & -> & Hq).
  simpl.
  destruct (cost_model_priced member quality_df) as (final_df & -> & Hf);
    [by repeat constructor | done |].
  simpl.
  destruct (rank_total final_df member 10 Hprim Hsec) as [out ->].
  { eapply Forall_impl; [exact Hf |]. apply priced_rankable. }
  by eexists.
Qed.

(** C9. The entry point answers each of the named cases with a discriminated
    outcome: a request whose JSON object has no (truthy) member id gets the
    validation failure 400; with an id, an empty member or provider dataset
    gets 500 (data unavailable); with both datasets loaded, an id that no
    member row carries gets 404 (member not found); and when the member is
    found and every provider lies beyond the member's radius, the answer is
    the regular 200 payload with an empty provider list and the member's own
    latitude and longitude.  It is not free of exceptions: a body that is
    not a JSON object raises [AttributeError] whatever the datasets hold.
    On datasets that meet the data contract, with a distance defined between
    every member and provider, every request with a JSON object is
    answered. *)
Theorem api_reports_discriminated_outcomes
    (members_df providers_df : frame) (data : request_json) :
  ((json_get data "member_id" = Ok None
    ∨ ∃ v, json_get data "member_id" = Ok (Some v) ∧ truthy v = false) →
   api members_df providers_df data
   = Ok (Response 400 (Message MemberIdRequired)))
  ∧ (∀ member_id,
       json_get data "member_id" = Ok (Some member_id) →
       truthy member_id = true →
       ((members_df = [] ∨ providers_df = []) →
        api members_df providers_df data
        = Ok (Response 500 (Message ServerDataNotAvailable)))
       ∧ (members_df ≠ [] → providers_df ≠ [] →
          Forall (other_member member_id) members_df →
          api members_df providers_df data
          = Ok (Response 404 (Message (MemberNotFound member_id))))
       ∧ (∀ before member after v lat lon max_km limit,
            members_df = (before ++ member :: after)%list →
            providers_df ≠ [] →
            Forall (other_member member_id) before →
            member !! "member_id" = Some v → value_eqb v member_id = true →
            Forall (λ r, is_Some (r !! "member_id")) after →
            member !! "latitude" = Some lat →
            member !! "longitude" = Some lon →
            member !! "max_travel_distance_km" = Some max_km →
            to_num max_km = Ok limit →
            Forall (λ p, ∃ d, distance lat lon p = Ok d ∧ limit < d)
              providers_df →
            api members_df providers_df data
            = Ok (Response 200 (Providers [] lat lon))))
  ∧ (data = JsonOther →
     api members_df providers_df data = Raise AttributeError)
  ∧ ((∃ d, data = JsonObject d) →
     Forall member_complete members_df →
     Forall provider_complete providers_df →
     (∀ m lat lon, m ∈ members_df →
        m !! "latitude" = Some lat → m !! "longitude" = Some lon →
        Forall (λ p, ∃ d, distance lat lon p = Ok d) providers_df) →
     ∃ resp, api members_df providers_df data = Ok resp).
Proof.
  split; [| split; [| split]]; unfold find_providers_api.
  - intros [-> | (v & -> & Ht)]; simpl; [done | by rewrite Ht].
  - intros member_id -> Ht. simpl. rewrite Ht. simpl. split; [| split].
    + intros [-> | ->]; [done |]. by rewrite orb_true_r.
    + intros Hm Hp Hnone.
      rewrite (empty_cons _ Hm), (empty_cons _ Hp). simpl.
      by rewrite (select_eq_none _ _ Hnone).
    + intros before member after v lat lon max_km limit
        -> Hp Hb Hv Heq Ha Hlat Hlon Hmax Hl Hfar.
      rewrite (empty_cons providers_df Hp).
      rewrite (empty_cons (before ++ member :: after))
        by (by destruct before).
      simpl.
      destruct (select_eq_first before after member member_id v Hb Hv Heq Ha)
        as [rest ->].
      simpl. unfold getitem. rewrite Hlat, Hlon, Hmax. simpl.
      unfold find_providers_in_radius.
      by rewrite (geo_loop_beyond lat lon max_km limit providers_df [] Hl Hfar).
  - by intros ->.
  - intros [d ->]. apply api_total.
Qed.

End Handler.

(** ** Examples on the sample data *)


Lemma ranker_sort_is_stable_witness :
  ∃ out df,
    rank_with_specialty_priority sample_scored_frame sample_member 3 = Ok out
    ∧ assign_priority sample_scored_frame sample_member = Ok df
    ∧ ∀ k, List.filter (has_key k) out `prefix_of` List.filter (has_key k) df.
Proof.
  destruct (rank_total sample_scored_frame sample_member 3) as [out Hout].
  - by eexists.
  - by eexists.
  - repeat constructor; by eexists.
  - destruct (ranker_sort_is_stable sample_scored_frame sample_member 3 out Hout)
      as (df & Hdf & _ & Hstable & _).
    exists out, df. split; [exact Hout |]. split; [exact Hdf | exact Hstable].
Defined.

Lemma geo_filter_keeps_within_radius_witness :
  ∃ out,
    find_providers_in_radius sample_distance (VNum 0) (VNum 0)
      [sample_provider "near" 3; sample_provider "edge" 10;
       sample_provider "far" 11] (VNum 10) = Ok out
    ∧ provider_data (sample_provider "edge" 10) 10 ∈ out
    ∧ provider_data (sample_provider "far" 11) 11 ∉ out.
Proof.
  destruct (geo_filter_keeps_within_radius sample_distance (VNum 0) (VNum 0)
              (VNum 10) 10
              [sample_provider "near" 3; sample_provider "edge" 10;
               sample_provider "far" 11] [3; 10; 11])
    as (out & Hout & Hiff & _).
  - reflexivity.
  - repeat constructor.
  - exists out. split; [exact Hout |]. split.
    + apply Hiff; [| by intros [=]]. right. left.
    + intros H. apply Hiff in H; [by apply H |]. right. right. left.
Defined.

Lemma api_reports_discriminated_outcomes_witness :
  find_providers_api sample_distance [sample_member]
    [sample_provider "far" 11] (JsonObject ∅)
  = Ok (Response 400 (Message MemberIdRequired))
  ∧ find_providers_api sample_distance [] [sample_provider "far" 11]
      (JsonObject {[ "member_id" := VStr "M1" ]})
    = Ok (Response 500 (Message ServerDataNotAvailable))
  ∧ find_providers_api sample_distance [sample_member]
      [sample_provider "far" 11] (JsonObject {[ "member_id" := VStr "M2" ]})
    = Ok (Response 404 (Message (MemberNotFound (VStr "M2"))))
  ∧ find_providers_api sample_distance [sample_member]
      [sample_provider "far" 11] (JsonObject {[ "member_id" := VStr "M1" ]})
    = Ok (Response 200 (Providers [] (VNum 0) (VNum 0)))
  ∧ find_providers_api sample_distance [sample_member]
      [sample_provider "far" 11] JsonOther
    = Raise AttributeError
  ∧ ∃ resp,
      find_providers_api sample_distance [sample_member]
        [sample_provider "near" 3; sample_provider "far" 11]
        (JsonObject {[ "member_id" := VStr "M1" ]}) = Ok resp.
Proof.
  split; [| split; [| split; [| split; [| split]]]].
  - apply (api_reports_discriminated_outcomes sample_distance). by left.
  - apply (api_reports_discriminated_outcomes sample_distance []
             [sample_provider "far" 11]
             (JsonObject {[ "member_id" := VStr "M1" ]}))
      with (member_id := VStr "M1"); [done | done | by left].
  - apply (api_reports_discriminated_outcomes sample_distance [sample_member]
             [sample_provider "far" 11]
             (JsonObject {[ "member_id" := VStr "M2" ]}))
      with (member_id := VStr "M2"); [done | done | done | done |].
    repeat constructor. by exists (VStr "M1").
  - apply (api_reports_discriminated_outcomes sample_distance [sample_member]
             [sample_provider "far" 11]
             (JsonObject {[ "member_id" := VStr "M1" ]}))
      with (member_id := VStr "M1") (before := []) (member := sample_member)
           (after := []) (v := VStr "M1") (max_km := VNum 10) (limit := 10);
      try done.
    repeat constructor. exists 11. split; [reflexivity | by compute].
  - by apply (api_reports_discriminated_outcomes sample_distance).
  - apply (api_reports_discriminated_outcomes sample_distance).
    + by eexists.
    + repeat constructor; (by eexists) || by intros s.
    + repeat constructor; (by eexists) || by intros s.
    + intros m lat lon ->%list_elem_of_singleton Hlat Hlon.
      vm_compute in Hlat, Hlon. injection Hlat as <-. injection Hlon as <-.
      repeat constructor; by eexists.
Defined.

(** The handler does raise.  A request whose body is the JSON document
    [null] fails at [data.get], before the datasets are looked at; and a
    request for a member whose record has no telehealth_preference fails in
    [quality_model] when a provider lies within the radius, here one at the
    member's own location. *)
Lemma api_raises_exceptions :
  find_providers_api sample_distance [sample_member]
    [sample_provider "here" 0] JsonOther
  = Raise AttributeError
  ∧ find_providers_api sample_distance
      [delete "telehealth_preference" sample_member]
      [sample_provider "here" 0] (JsonObject {[ "member_id" := VStr "M1" ]})
    = Raise (KeyError "telehealth_preference").
Proof. split; [reflexivity | vm_compute; reflexivity]. Qed.

(** * Further properties of the code *)

(** ** QualityScorer: further properties *)

Lemma attr_insert_eq (r : row) (k : string) (x : Q) :
  attr (<[k := VNum x]> r) k = x.
Proof. unfold attr, get_num, get. by rewrite lookup_insert_eq. Qed.

Lemma attr_insert_ne (r : row) (k k' : string) (v : value) :
  k ≠ k' → attr (<[k := v]> r) k' = attr r k'.
Proof. intros H. unfold attr. by rewrite get_num_insert_ne. Qed.

Lemma get_flag_insert_eq (r : row) (k : string) (b : bool) :
  get_flag (<[k := VBool b]> r) k = b.
Proof. unfold get_flag, get. by rewrite lookup_insert_eq. Qed.

Lemma clamp_mono (x y : Q) : x <= y → clamp 1 5 x <= clamp 1 5 y.
Proof.
  intros H. unfold clamp.
  apply Q.max_le_compat_l. by apply Q.min_le_compat_l.
Qed.

Lemma quality_row_columns (pref : value) (r out : row) :
  quality_row pref r = Ok out →
  ∃ s, calculate_quality_score r = Ok s
    ∧ s == clamp 1 5 (weighted_composite r)
    ∧ out !! "telehealth_preference" = Some pref
    ∧ out !! "quality_score" = Some (VNum (round1 s))
    ∧ out !! "benchmark_percent"
      = Some (VNum (inject_Z (rint (2 * round1 s * 10))))
    ∧ same_outside quality_columns r out.
Proof.
  intros (s & Hs & ->)%quality_row_Ok. exists s.
  split; [done |]. split; [by apply calculate_quality_score_Ok |].
  split; [rewrite !lookup_insert_ne by done; apply lookup_insert_eq |].
  split; [rewrite !lookup_insert_ne by done; apply lookup_insert_eq |].
  split; [apply lookup_insert_eq |].
  intros k Hk. unfold quality_columns in Hk. rewrite !not_elem_of_cons in Hk.
  destruct Hk as (? & ? & ? & _). by rewrite !lookup_insert_ne.
Qed.

(** X1. The benchmark percent that [quality_model] stores is exactly twenty
    times the stored quality score: an even whole number between 20 and 100;
    the final rounding of the source never changes the value. *)
Theorem benchmark_percent_is_twenty_times_score (pref : value) (r out : row) :
  quality_row pref r = Ok out →
  ∃ q b, out !! "quality_score" = Some (VNum q)
    ∧ out !! "benchmark_percent" = Some (VNum (inject_Z b))
    ∧ inject_Z b == 20 * q
    ∧ (20 <= b <= 100)%Z ∧ Z.even b = true.
Proof.
  intros (s & Hs & _ & _ & Hq & Hb & _)%quality_row_columns.
  apply calculate_quality_score_Ok in Hs as (H1 & H5 & _).
  set (n := rint (s * 10)).
  assert (2 * round1 s * 10 == inject_Z (2 * n)) as E.
  { rewrite inject_Z_mult. change (inject_Z 2) with 2.
    unfold round1. fold n. field. }
  exists (round1 s), (2 * n)%Z. split; [done |].
  split; [by rewrite Hb, (rint_comp _ _ E), rint_inject_Z |].
  split.
  { rewrite inject_Z_mult. change (inject_Z 2) with 2.
    unfold round1. fold n. field. }
  assert (10 <= n)%Z
    by (apply rint_lower; change (inject_Z 10) with 10; lra).
  assert (n <= 50)%Z
    by (apply rint_upper; change (inject_Z 50) with 50; lra).
  split; [lia |]. by rewrite Z.even_mul.
Qed.

Lemma benchmark_percent_is_twenty_times_score_witness :
  ∃ out q b, quality_row (VBool true) ∅ = Ok out
    ∧ out !! "quality_score" = Some (VNum q)
    ∧ out !! "benchmark_percent" = Some (VNum (inject_Z b))
    ∧ inject_Z b == 20 * q
    ∧ (20 <= b <= 100)%Z ∧ Z.even b = true.
Proof.
  destruct (calculate_quality_score_total ∅) as [s Hs];
    [repeat constructor; by intros ? |].
  destruct (quality_row_score (VBool true) ∅ s Hs) as (out & Hout & _).
  destruct (benchmark_percent_is_twenty_times_score (VBool true) ∅ out Hout)
    as (q & b & H).
  exists out, q, b. split; [exact Hout | exact H].
Defined.

(** X2. The stored quality score is a whole number of tenths and differs from
    the clamped weighted composite by at most 0.05. *)
Theorem quality_score_within_rounding (pref : value) (r out : row) :
  quality_row pref r = Ok out →
  ∃ q n, out !! "quality_score" = Some (VNum q)
    ∧ q * 10 == inject_Z n
    ∧ q - clamp 1 5 (weighted_composite r) <= 0.05
    ∧ clamp 1 5 (weighted_composite r) - q <= 0.05.
Proof.
  intros (s & _ & Hs & _ & Hq & _)%quality_row_columns.
  exists (round1 s), (rint (s * 10)). split; [done |].
  split; [apply round1_tenths |].
  destruct (round1_near s) as [Hu Hl]. rewrite <- Hs. split; lra.
Qed.

Lemma quality_score_within_rounding_witness :
  ∃ out q n, quality_row (VBool true) ∅ = Ok out
    ∧ out !! "quality_score" = Some (VNum q)
    ∧ q * 10 == inject_Z n
    ∧ q - clamp 1 5 (weighted_composite ∅) <= 0.05
    ∧ clamp 1 5 (weighted_composite ∅) - q <= 0.05.
Proof.
  destruct (calculate_quality_score_total ∅) as [s Hs];
    [repeat constructor; by intros ? |].
  destruct (quality_row_score (VBool true) ∅ s Hs) as (out & Hout & _).
  destruct (quality_score_within_rounding (VBool true) ∅ out Hout)
    as (q & n & H).
  exists out, q, n. split; [exact Hout | exact H].
Defined.

Lemma get_num_Ok_numeric (d : row) (k : string) (default q : Q) :
  get_num d k default = Ok q → numeric_or_absent d k.
Proof. intros H s Hs. unfold get_num, get in H. by rewrite Hs in H. Qed.

Lemma get_num_Raise (d : row) (k : string) (default : Q) (e : exn) :
  get_num d k default = Raise e → e = TypeError.
Proof.
  unfold get_num. destruct (get d k _) as [q|b|s]; simpl; congruence.
Qed.

Lemma bind_Raise {A B : Type} (m : result A) (k : A → result B) (e : exn) :
  m ≫= k = Raise e ↔ m = Raise e ∨ ∃ a, m = Ok a ∧ k a = Raise e.
Proof.
  destruct m as [a|e']; simpl; split.
  - intros H. right. by exists a.
  - intros [[=] | (a' & [= <-] & H)]. done.
  - intros [= ->]. by left.
  - intros [[= ->] | (a' & [=] & _)]. done.
Qed.

Lemma mapM_Raise {A B : Type} (f : A → result B) (l : list A) (e : exn) :
  mapM f l = Raise e → ∃ a, a ∈ l ∧ f a = Raise e.
Proof.
  induction l as [|a l IH]; simpl; [done |].
  intros [H | (b & Hb & H)]%bind_Raise.
  - exists a. split; [left | done].
  - apply bind_Raise in H as [H | (bs & _ & [=])].
    destruct (IH H) as (a' & Hin & Ha'). exists a'. split; [by right | done].
Qed.

Lemma calculate_quality_score_numeric (r : row) (s : Q) :
  calculate_quality_score r = Ok s → scoring_attrs_numeric r.
Proof.
  unfold calculate_quality_score. intros H.
  inv_bind H. inv_bind H. inv_bind H. inv_bind H.
  repeat constructor; by eapply get_num_Ok_numeric.
Qed.

Lemma calculate_quality_score_Raise (r : row) (e : exn) :
  calculate_quality_score r = Raise e → e = TypeError.
Proof.
  unfold calculate_quality_score. intros H.
  repeat (apply bind_Raise in H as [H | (? & _ & H)];
          [by eapply get_num_Raise |]).
  done.
Qed.

Lemma experience_term_capped (e : Q) : 40 <= e → Qmin (e / 40) 1 == 1.
Proof.
  intros H. apply Q.min_r. apply Qle_shift_div_l; lra.
Qed.

(** X3. Experience counts up to forty years: two records that differ only in
    experience_years, both at forty or more, get the same quality score and
    benchmark percent. *)
Theorem experience_counts_up_to_forty_years
    (pref : value) (r out out' : row) (e e' : Q) :
  40 <= e → 40 <= e' →
  quality_row pref (<["experience_years" := VNum e]> r) = Ok out →
  quality_row pref (<["experience_years" := VNum e']> r) = Ok out' →
  out !! "quality_score" = out' !! "quality_score"
  ∧ out !! "benchmark_percent" = out' !! "benchmark_percent".
Proof.
  intros He He'
    (s & _ & Hs & _ & Hq & Hb & _)%quality_row_columns
    (s' & _ & Hs' & _ & Hq' & Hb' & _)%quality_row_columns.
  assert (round1 s = round1 s') as E.
  { apply round1_comp. rewrite Hs, Hs'. apply clamp_comp.
    unfold weighted_composite.
    rewrite !attr_insert_eq, !attr_insert_ne, !get_flag_insert_ne by done.
    by rewrite !experience_term_capped. }
  rewrite Hq, Hq', Hb, Hb', E. done.
Qed.

Lemma experience_counts_up_to_forty_years_witness :
  ∃ out out',
    quality_row (VBool true) (<["experience_years" := VNum 40]> ∅) = Ok out
    ∧ quality_row (VBool true) (<["experience_years" := VNum 55]> ∅) = Ok out'
    ∧ out !! "quality_score" = out' !! "quality_score"
    ∧ out !! "benchmark_percent" = out' !! "benchmark_percent".
Proof.
  destruct (calculate_quality_score_total (<["experience_years" := VNum 40]> ∅))
    as [s Hs]; [repeat constructor; by intros ? |].
  destruct (calculate_quality_score_total (<["experience_years" := VNum 55]> ∅))
    as [s' Hs']; [repeat constructor; by intros ? |].
  destruct (quality_row_score (VBool true) _ s Hs) as (out & Hout & _).
  destruct (quality_row_score (VBool true) _ s' Hs') as (out' & Hout' & _).
  exists out, out'. split; [exact Hout |]. split; [exact Hout' |].
  apply (experience_counts_up_to_forty_years (VBool true) ∅ out out' 40 55);
    [lra | lra | exact Hout | exact Hout'].
Defined.

Lemma weighted_composite_improves (r : row) (k : string) (v v' : value) :
  improves k v v' →
  weighted_composite (<[k := v]> r) <= weighted_composite (<[k := v']> r).
Proof.
  intros [[Hk (x & y & -> & -> & Hxy)]
         | [[-> (x & y & -> & -> & Hxy)] | [Hk [-> ->]]]].
  - rewrite !elem_of_cons in Hk.
    destruct Hk as [-> | [-> | [-> | Hk]]]; [| | | by apply elem_of_nil in Hk];
      unfold weighted_composite;
      rewrite !attr_insert_eq, !attr_insert_ne, !get_flag_insert_ne by done;
      repeat destruct (get_flag r _).
    all: try (assert (Qmin (x / 40) 1 <= Qmin (y / 40) 1)
                by (apply Q.min_le_compat_r, Qmult_le_compat_r; [done | by compute]);
              lra).
    all: assert (x / 5 <= y / 5)
           by (apply Qmult_le_compat_r; [done | by compute]); lra.
  - unfold weighted_composite.
    rewrite !attr_insert_eq, !attr_insert_ne, !get_flag_insert_ne by done.
    repeat destruct (get_flag r _); lra.
  - rewrite !elem_of_cons in Hk.
    destruct Hk as [-> | [-> | [-> | Hk]]]; [| | | by apply elem_of_nil in Hk];
      unfold weighted_composite;
      rewrite !attr_insert_ne, !get_flag_insert_eq, !get_flag_insert_ne by done;
      repeat destruct (get_flag r _); lra.
Qed.

(** X4. Improving one scoring attribute never lowers the stored quality
    score: more experience, a higher patient rating or regulatory score, a
    lower risk rate, or a credential or telehealth flag set instead of
    unset. *)
Theorem improving_an_attribute_never_lowers_score
    (pref : value) (r out out' : row) (k : string) (v v' : value) :
  improves k v v' →
  quality_row pref (<[k := v]> r) = Ok out →
  quality_row pref (<[k := v']> r) = Ok out' →
  ∃ q q', out !! "quality_score" = Some (VNum q)
    ∧ out' !! "quality_score" = Some (VNum q')
    ∧ q <= q'.
Proof.
  intros Hk
    (s & _ & Hs & _ & Hq & _)%quality_row_columns
    (s' & _ & Hs' & _ & Hq' & _)%quality_row_columns.
  exists (round1 s), (round1 s'). split; [done |]. split; [done |].
  apply round1_mono. rewrite Hs, Hs'.
  by apply clamp_mono, weighted_composite_improves.
Qed.

Lemma improving_an_attribute_never_lowers_score_witness :
  ∃ out out' q q',
    quality_row (VBool true) (<["risk_rate" := VNum 0.5]> ∅) = Ok out
    ∧ quality_row (VBool true) (<["risk_rate" := VNum 0.1]> ∅) = Ok out'
    ∧ out !! "quality_score" = Some (VNum q)
    ∧ out' !! "quality_score" = Some (VNum q')
    ∧ q <= q'.
Proof.
  destruct (calculate_quality_score_total (<["risk_rate" := VNum 0.5]> ∅))
    as [s Hs]; [repeat constructor; by intros ? |].
  destruct (calculate_quality_score_total (<["risk_rate" := VNum 0.1]> ∅))
    as [s' Hs']; [repeat constructor; by intros ? |].
  destruct (quality_row_score (VBool true) _ s Hs) as (out & Hout & _).
  destruct (quality_row_score (VBool true) _ s' Hs') as (out' & Hout' & _).
  destruct (improving_an_attribute_never_lowers_score (VBool true) ∅ out out'
              "risk_rate" (VNum 0.5) (VNum 0.1)) as (q & q' & H);
    [| exact Hout | exact Hout' |].
  - right. left. split; [done |]. exists 0.5, 0.1. by repeat split.
  - exists out, out', q, q'. split; [exact Hout |]. split; [exact Hout' | exact H].
Defined.

Lemma Forall2_exists_l {A B : Type} (P : A → B → Prop)
    (l : list A) (k : list B) :
  Forall2 P l k → Forall (λ a, ∃ b, P a b) l.
Proof. induction 1; constructor; eauto. Qed.

(** X5. [quality_model] keeps the rows in place and sets three columns: every
    output row carries the member's telehealth preference (whatever the input
    row held there), and agrees with its input row outside
    telehealth_preference, quality_score and benchmark_percent. *)
Theorem quality_model_attaches_preference (df out : frame) (member : row) :
  quality_model df member = Ok out →
  ∃ pref, member !! "telehealth_preference" = Some pref
    ∧ Forall2 (λ r r', r' !! "telehealth_preference" = Some pref
                       ∧ same_outside quality_columns r r') df out.
Proof.
  unfold quality_model, getitem. intros H.
  destruct (member !! "telehealth_preference") as [pref|]; [| done].
  exists pref. split; [done |]. simpl in H. apply mapM_Ok in H.
  eapply Forall2_impl; [exact H |]. intros r r' Hr. simpl in Hr.
  apply quality_row_columns in Hr as (s & _ & _ & Hp & _ & _ & Hsame). done.
Qed.

Lemma quality_model_attaches_preference_witness :
  ∃ out pref,
    quality_model [blank_provider] {[ "telehealth_preference" := VBool true ]}
    = Ok out
    ∧ ({[ "telehealth_preference" := VBool true ]} : row)
        !! "telehealth_preference" = Some pref
    ∧ Forall2 (λ r r', r' !! "telehealth_preference" = Some pref
                       ∧ same_outside quality_columns r r')
        [blank_provider] out.
Proof.
  destruct (calculate_quality_score_total blank_provider) as [s Hs];
    [repeat constructor; by intros ? |].
  destruct (quality_row_score (VBool true) blank_provider s Hs)
    as (out & Hout & _).
  assert (quality_model [blank_provider]
            {[ "telehealth_preference" := VBool true ]} = Ok [out]) as H.
  { unfold quality_model, getitem. rewrite lookup_singleton_eq. simpl.
    by rewrite Hout. }
  destruct (quality_model_attaches_preference _ _ _ H) as (pref & Hp).
  exists [out], pref. split; [exact H | exact Hp].
Defined.

(** X6. [quality_model] returns exactly when the member states a telehealth
    preference and every scoring attribute that is present in a row is a
    number or a flag.  Without the preference it raises
    KeyError('telehealth_preference'), even on an empty provider list; with
    it, the only exception is a TypeError. *)
Theorem quality_model_success_and_errors (df : frame) (member : row) :
  ((∃ out, quality_model df member = Ok out) ↔
     is_Some (member !! "telehealth_preference")
     ∧ Forall scoring_attrs_numeric df)
  ∧ (member !! "telehealth_preference" = None →
     quality_model df member = Raise (KeyError "telehealth_preference"))
  ∧ (∀ e, is_Some (member !! "telehealth_preference") →
       quality_model df member = Raise e → e = TypeError).
Proof.
  unfold quality_model, getitem. split; [| split].
  - split.
    + intros [out H].
      destruct (member !! "telehealth_preference") as [pref|]; [| done].
      split; [done |]. simpl in H. apply mapM_Ok in H.
      apply Forall2_exists_l in H. eapply Forall_impl; [exact H |].
      intros r [r' (s & Hs & _)%quality_row_Ok].
      by eapply calculate_quality_score_numeric.
    + intros [[pref ->] Hdf]. simpl.
      apply mapM_total. eapply Forall_impl; [exact Hdf |].
      intros r [s Hs]%calculate_quality_score_total.
      destruct (quality_row_score pref r s Hs) as (out & Hout & _). eauto.
  - by intros ->.
  - intros e [pref ->] H. simpl in H.
    apply mapM_Raise in H as (r & _ & Hr). unfold quality_row in Hr.
    apply bind_Raise in Hr as [Hr | (? & _ & [=])].
    by eapply calculate_quality_score_Raise.
Qed.

Lemma quality_model_success_and_errors_witness :
  (∃ out, quality_model [blank_provider]
            {[ "telehealth_preference" := VBool true ]} = Ok out)
  ∧ quality_model [] ∅ = Raise (KeyError "telehealth_preference")
  ∧ (∀ e, quality_model [ {[ "risk_rate" := VStr "low" ]} ]
            {[ "telehealth_preference" := VBool true ]} = Raise e →
          e = TypeError).
Proof.
  split; [| split].
  - apply (quality_model_success_and_errors [blank_provider]).
    split; [by eexists |]. repeat constructor; by intros ?.
  - by apply (quality_model_success_and_errors [] ∅).
  - intros e.
    apply (quality_model_success_and_errors
             [ {[ "risk_rate" := VStr "low" ]} ]
             {[ "telehealth_preference" := VBool true ]}).
    by eexists.
Defined.

(** ** CostModel: further properties *)

Lemma get_num_insert_eq (d : row) (k : string) (x default : Q) :
  get_num (<[k := VNum x]> d) k default = Ok x.
Proof. unfold get_num, get. by rewrite lookup_insert_eq. Qed.

Lemma py_max_nonpos (b : Q) : b <= 0 → py_max 0 b = 0.
Proof. intros H. unfold py_max. destruct (Qlt_le_dec 0 b); [lra | done]. Qed.

Lemma py_max_mono (a a' b : Q) : a <= a' → py_max a b <= py_max a' b.
Proof. intros H. unfold py_max. repeat destruct (Qlt_le_dec _ _); lra. Qed.

Lemma coverage_share_bounds (member : row) :
  0.6 <= coverage_share member ∧ coverage_share member <= 0.85.
Proof.
  unfold coverage_share, table_get.
  destruct (get member _ _) as [q|b|s]; [split; lra | split; lra |].
  destruct (coverage_map !! s) as [x|] eqn:E; [| split; lra].
  apply coverage_map_lookup in E as [[_ ->] | [[_ ->] | [_ ->]]]; split; lra.
Qed.

Lemma wait_penalty_Ok (provider member : row) (w : Q) :
  wait_penalty provider member = Ok w ↔
  ∃ wait expected,
    get_num provider "wait_time_days" 0 = Ok wait
    ∧ get_num member "expected_wait_time_days" 5 = Ok expected
    ∧ w = 1 + 0.01 * py_max 0 (wait - expected).
Proof.
  unfold wait_penalty. split.
  - intros H. inv_bind H. inv_bind H. apply Ok_inj in H as <-. eauto.
  - intros (wait & expected & -> & -> & ->). done.
Qed.

Lemma wait_penalty_at_least_one (provider member : row) (w : Q) :
  wait_penalty provider member = Ok w → 1 <= w.
Proof.
  intros (wait & expected & _ & _ & ->)%wait_penalty_Ok.
  pose proof (py_max_lower 0 (wait - expected)) as [H _]. lra.
Qed.

(** The payment in terms of the five numbers read and the two table
    values. *)
Lemma calculate_payment_formula (provider member : row) (payment share : Q) :
  calculate_payment provider member = Ok (payment, share) →
  ∃ sc ey inv w,
    get_num provider "service_cost" 0 = Ok sc
    ∧ get_num provider "experience_years" 0 = Ok ey
    ∧ get_num member "invested_amount" 0 = Ok inv
    ∧ wait_penalty provider member = Ok w
    ∧ payment =
        py_max
          ((sc * (1 + 0.01 * ey) * coverage_share member - 0.2 * inv)
           * visits member * w)
          (0.2 * (sc * (1 + 0.01 * ey)) * visits member)
    ∧ share = 0.2 * inv.
Proof.
  intros (sc & ey & w & e & inv & Hsc & Hey & Hw & He & Hinv & -> & ->)
    %calculate_payment_Ok.
  exists sc, ey, inv, (1 + 0.01 * py_max 0 (w - e)).
  repeat (split; [done |]). split; [| done].
  apply wait_penalty_Ok. eauto.
Qed.

(** X7. A wait within the member's expectation costs nothing: two providers
    that differ only in wait_time_days, both at most the expected wait, are
    priced identically. *)
Theorem no_penalty_within_expected_wait
    (provider member : row) (expected x y : Q) :
  get_num member "expected_wait_time_days" 5 = Ok expected →
  x <= expected → y <= expected →
  calculate_payment (<["wait_time_days" := VNum x]> provider) member
  = calculate_payment (<["wait_time_days" := VNum y]> provider) member.
Proof.
  intros He Hx Hy. unfold calculate_payment, adj_cost, wait_penalty.
  rewrite !(get_num_insert_ne _ _ "service_cost"),
    !(get_num_insert_ne _ _ "experience_years") by done.
  rewrite !get_num_insert_eq, He.
  destruct (get_num provider "service_cost" 0) as [sc|]; [| done].
  destruct (get_num provider "experience_years" 0) as [ey|]; [| done].
  cbn [mbind result_bind].
  rewrite (py_max_nonpos (x - expected)), (py_max_nonpos (y - expected)) by lra.
  done.
Qed.

Lemma no_penalty_within_expected_wait_witness :
  calculate_payment
    (<["wait_time_days" := VNum 1]> {[ "service_cost" := VNum 100 ]}) ∅
  = calculate_payment
      (<["wait_time_days" := VNum 4]> {[ "service_cost" := VNum 100 ]}) ∅.
Proof.
  apply (no_penalty_within_expected_wait {[ "service_cost" := VNum 100 ]} ∅ 5);
    [reflexivity | lra | lra].
Defined.

(** X8. With nonnegative cost, experience and invested amount, the insurance
    payment never exceeds 85 % of the adjusted cost times the visits times
    the wait penalty, 0.85 being the largest coverage share. *)
Theorem payment_at_most_top_share
    (provider member : row) (sc ey inv w payment share : Q) :
  get_num provider "service_cost" 0 = Ok sc →
  get_num provider "experience_years" 0 = Ok ey →
  get_num member "invested_amount" 0 = Ok inv →
  wait_penalty provider member = Ok w →
  0 <= sc → 0 <= ey → 0 <= inv →
  calculate_payment provider member = Ok (payment, share) →
  payment <= 0.85 * (sc * (1 + 0.01 * ey)) * visits member * w.
Proof.
  intros Hsc Hey Hinv Hw Hsc0 Hey0 Hinv0
    (sc' & ey' & inv' & w' & Esc & Eey & Einv & Ew & -> & _)
    %calculate_payment_formula.
  rewrite Hsc in Esc. rewrite Hey in Eey. rewrite Hinv in Einv.
  rewrite Hw in Ew.
  apply Ok_inj in Esc as <-. apply Ok_inj in Eey as <-.
  apply Ok_inj in Einv as <-. apply Ok_inj in Ew as <-.
  pose proof (wait_penalty_at_least_one _ _ _ Hw) as Hw1.
  pose proof (visits_positive member) as Hv.
  pose proof (coverage_share_bounds member) as [_ Hc].
  set (A := sc * (1 + 0.01 * ey)). set (V := visits member) in *.
  set (C := coverage_share member) in *.
  assert (0 <= A) as HA by (apply Qmult_le_0_compat; lra).
  assert (0 <= V * w) as HVW by (apply Qmult_le_0_compat; lra).
  assert (0 <= A * V) as HAV by (apply Qmult_le_0_compat; lra).
  assert (0 <= (A * (0.85 - C) + 0.2 * inv) * (V * w)) as H1.
  { apply Qmult_le_0_compat; [| done].
    assert (0 <= A * (0.85 - C)) by (apply Qmult_le_0_compat; lra). lra. }
  assert (0 <= (A * V) * (0.85 * w - 0.2)) as H2
    by (apply Qmult_le_0_compat; lra).
  unfold py_max. destruct (Qlt_le_dec _ _); lra.
Qed.

Lemma payment_at_most_top_share_witness :
  ∃ payment share,
    calculate_payment {[ "service_cost" := VNum 100 ]} ∅ = Ok (payment, share)
    ∧ payment <= 0.85 * (100 * (1 + 0.01 * 0)) * visits ∅ * 1.00.
Proof.
  destruct (calculate_payment_total {[ "service_cost" := VNum 100 ]} ∅)
    as [[payment share] H]; [split; repeat constructor; by intros ? |].
  exists payment, share. split; [exact H |].
  apply (payment_at_most_top_share {[ "service_cost" := VNum 100 ]} ∅
           100 0 0 1.00 payment share);
    [reflexivity | reflexivity | reflexivity | reflexivity
    | lra | lra | lra | exact H].
Defined.

(** X9. When the member's share (0.2 times the invested amount) covers the
    insurer's base payment, the payment is exactly the floor
    0.2 * adjusted_cost * visits, for nonnegative cost and experience. *)
Theorem payment_is_the_floor_when_share_covers_base
    (provider member : row) (sc ey inv payment share : Q) :
  get_num provider "service_cost" 0 = Ok sc →
  get_num provider "experience_years" 0 = Ok ey →
  get_num member "invested_amount" 0 = Ok inv →
  0 <= sc → 0 <= ey →
  sc * (1 + 0.01 * ey) * coverage_share member <= 0.2 * inv →
  calculate_payment provider member = Ok (payment, share) →
  payment == 0.2 * (sc * (1 + 0.01 * ey)) * visits member.
Proof.
  intros Hsc Hey Hinv Hsc0 Hey0 Hcover
    (sc' & ey' & inv' & w & Esc & Eey & Einv & Hw & -> & _)
    %calculate_payment_formula.
  rewrite Hsc in Esc. rewrite Hey in Eey. rewrite Hinv in Einv.
  apply Ok_inj in Esc as <-. apply Ok_inj in Eey as <-.
  apply Ok_inj in Einv as <-.
  pose proof (wait_penalty_at_least_one _ _ _ Hw) as Hw1.
  pose proof (visits_positive member) as Hv.
  set (A := sc * (1 + 0.01 * ey)) in *. set (V := visits member) in *.
  set (C := coverage_share member) in *.
  assert (0 <= A) as HA by (apply Qmult_le_0_compat; lra).
  assert (0 <= V * w) as HVW by (apply Qmult_le_0_compat; lra).
  assert (0 <= A * V) as HAV by (apply Qmult_le_0_compat; lra).
  assert (0 <= (0.2 * inv - A * C) * (V * w)) as H1
    by (apply Qmult_le_0_compat; lra).
  unfold py_max. destruct (Qlt_le_dec _ _); lra.
Qed.

Lemma payment_is_the_floor_when_share_covers_base_witness :
  ∃ payment share,
    calculate_payment {[ "service_cost" := VNum 100 ]}
      {[ "invested_amount" := VNum 1000 ]} = Ok (payment, share)
    ∧ payment == 0.2 * (100 * (1 + 0.01 * 0))
                 * visits {[ "invested_amount" := VNum 1000 ]}.
Proof.
  destruct (calculate_payment_total {[ "service_cost" := VNum 100 ]}
              {[ "invested_amount" := VNum 1000 ]})
    as [[payment share] H]; [split; repeat constructor; by intros ? |].
  exists payment, share. split; [exact H |].
  apply (payment_is_the_floor_when_share_covers_base
           {[ "service_cost" := VNum 100 ]}
           {[ "invested_amount" := VNum 1000 ]} 100 0 1000 payment share);
    [reflexivity | reflexivity | reflexivity | lra | lra | | exact H].
  rewrite coverage_share_absent by reflexivity. lra.
Defined.

(** X10. A larger invested amount never raises the insurance payment, and
    never lowers the member share. *)
Theorem larger_investment_never_raises_payment
    (provider member : row) (x y payment share payment' share' : Q) :
  x <= y →
  calculate_payment provider (<["invested_amount" := VNum x]> member)
  = Ok (payment, share) →
  calculate_payment provider (<["invested_amount" := VNum y]> member)
  = Ok (payment', share') →
  payment' <= payment ∧ share <= share'.
Proof.
  intros Hxy
    (sc & ey & inv & w & Hsc & Hey & Hinv & Hw & -> & ->)
    %calculate_payment_formula
    (sc' & ey' & inv' & w' & Hsc' & Hey' & Hinv' & Hw' & -> & ->)
    %calculate_payment_formula.
  rewrite Hsc in Hsc'. rewrite Hey in Hey'.
  apply Ok_inj in Hsc' as <-. apply Ok_inj in Hey' as <-.
  rewrite get_num_insert_eq in Hinv, Hinv'.
  apply Ok_inj in Hinv as <-. apply Ok_inj in Hinv' as <-.
  pose proof (wait_penalty_at_least_one _ _ _ Hw) as Hw1.
  unfold wait_penalty in Hw, Hw'.
  rewrite get_num_insert_ne in Hw, Hw' by done.
  rewrite Hw in Hw'. apply Ok_inj in Hw' as <-.
  unfold coverage_share, visits. rewrite !get_insert_ne by done.
  fold (coverage_share member). fold (visits member).
  pose proof (visits_positive member) as Hv.
  split; [| lra]. apply py_max_mono.
  apply Qmult_le_compat_r; [| lra]. apply Qmult_le_compat_r; lra.
Qed.

Lemma larger_investment_never_raises_payment_witness :
  ∃ payment share payment' share',
    calculate_payment {[ "service_cost" := VNum 100 ]}
      (<["invested_amount" := VNum 10]> ∅) = Ok (payment, share)
    ∧ calculate_payment {[ "service_cost" := VNum 100 ]}
        (<["invested_amount" := VNum 200]> ∅) = Ok (payment', share')
    ∧ payment' <= payment ∧ share <= share'.
Proof.
  destruct (calculate_payment_total {[ "service_cost" := VNum 100 ]}
              (<["invested_amount" := VNum 10]> ∅))
    as [[payment share] H]; [split; repeat constructor; by intros ? |].
  destruct (calculate_payment_total {[ "service_cost" := VNum 100 ]}
              (<["invested_amount" := VNum 200]> ∅))
    as [[payment' share'] H']; [split; repeat constructor; by intros ? |].
  exists payment, share, payment', share'.
  split; [exact H |]. split; [exact H' |].
  apply (larger_investment_never_raises_payment
           {[ "service_cost" := VNum 100 ]} ∅ 10 200);
    [lra | exact H | exact H'].
Defined.

(** ** Name normalization, [cost_model] and the listing endpoint *)

Lemma has_column_false (df : frame) (c : string) :
  has_column df c = false ↔ Forall (λ r, r !! c = None) df.
Proof.
  unfold has_column. induction df as [|r df IH]; simpl.
  - split; [constructor | done].
  - rewrite orb_false_iff, IH, Forall_cons, bool_decide_eq_false.
    rewrite <- eq_None_not_Some. done.
Qed.

Lemma has_column_true (df : frame) (c : string) :
  has_column df c = true ↔ ∃ r, r ∈ df ∧ is_Some (r !! c).
Proof.
  unfold has_column. rewrite existsb_exists.
  setoid_rewrite bool_decide_eq_true. setoid_rewrite list_elem_of_In. done.
Qed.

Lemma rename_column_promoted (p : row) :
  p !! "name" = None → name_promoted p (rename_column "provider_name" "name" p).
Proof.
  intros Hn. unfold name_promoted, rename_column.
  destruct (p !! "provider_name") as [v|] eqn:E.
  - split; [by rewrite lookup_insert_eq |].
    split; [by rewrite lookup_insert_ne, lookup_delete_eq |].
    intros k Hk. rewrite !not_elem_of_cons in Hk. destruct Hk as (? & ? & _).
    by rewrite lookup_insert_ne, lookup_delete_ne.
  - by repeat split.
Qed.

Lemma normalize_names_length (df : frame) :
  length (normalize_names df) = length df.
Proof.
  unfold normalize_names. destruct (_ && _); [apply length_fmap | done].
Qed.

Lemma normalize_names_named (df : frame) :
  has_column df "name" = true → normalize_names df = df.
Proof. intros H. unfold normalize_names. by rewrite H. Qed.

Lemma normalize_names_unnamed (df : frame) :
  has_column df "name" = false → Forall2 name_promoted df (normalize_names df).
Proof.
  intros H. unfold normalize_names. rewrite H. simpl.
  apply has_column_false in H.
  destruct (has_column df "provider_name") eqn:Hp.
  - apply Forall2_fmap_r, Forall_Forall2_diag.
    eapply Forall_impl; [exact H |]. intros p. apply rename_column_promoted.
  - apply has_column_false in Hp. apply Forall_Forall2_diag.
    rewrite Forall_forall in H, Hp. apply Forall_forall. intros p Hin.
    split; [by rewrite H, Hp |]. split; [by apply Hp | done].
Qed.

Lemma normalize_names_idempotent (df : frame) :
  normalize_names (normalize_names df) = normalize_names df.
Proof.
  destruct (has_column df "name") eqn:Hn.
  { rewrite (normalize_names_named df Hn). by apply normalize_names_named. }
  destruct (has_column df "provider_name") eqn:Hp.
  - apply normalize_names_named. unfold normalize_names. rewrite Hn, Hp. simpl.
    apply has_column_true in Hp as (r & Hr & [v Hv]).
    apply has_column_true.
    exists (rename_column "provider_name" "name" r).
    split; [by apply list_elem_of_fmap_2 |].
    unfold rename_column. rewrite Hv. rewrite lookup_insert_eq. by eexists.
  - assert (normalize_names df = df) as E
      by (unfold normalize_names; by rewrite Hn, Hp).
    by rewrite !E.
Qed.

Lemma get_all_providers_normalize (providers_df : frame) :
  providers_df ≠ [] →
  get_all_providers providers_df
  = (200%Z, Records (normalize_names providers_df)).
Proof.
  intros H. unfold get_all_providers, normalize_names.
  rewrite (empty_cons _ H). by destruct (_ && _).
Qed.

(** X11. The listing endpoint answers 500 on an empty provider dataset and
    otherwise 200 with one record per provider: the dataset itself if it has
    a name column, and else each record with its provider_name moved to name
    and nothing else changed. *)
Theorem listing_normalizes_names (providers_df : frame) :
  (providers_df = [] →
   get_all_providers providers_df = (500%Z, ProviderDataNotAvailable))
  ∧ (providers_df ≠ [] →
     ∃ records,
       get_all_providers providers_df = (200%Z, Records records)
       ∧ length records = length providers_df
       ∧ (has_column providers_df "name" = true → records = providers_df)
       ∧ (has_column providers_df "name" = false →
          Forall2 name_promoted providers_df records)).
Proof.
  split; [by intros -> |]. intros H.
  exists (normalize_names providers_df).
  split; [by apply get_all_providers_normalize |].
  split; [apply normalize_names_length |].
  split; [apply normalize_names_named | apply normalize_names_unnamed].
Qed.

Lemma listing_normalizes_names_witness :
  get_all_providers [] = (500%Z, ProviderDataNotAvailable)
  ∧ ∃ records,
      get_all_providers [ {[ "provider_name" := VStr "Dr. A" ]} ]
      = (200%Z, Records records)
      ∧ Forall2 name_promoted [ {[ "provider_name" := VStr "Dr. A" ]} ] records.
Proof.
  split; [by apply (listing_normalizes_names []) |].
  destruct (listing_normalizes_names [ {[ "provider_name" := VStr "Dr. A" ]} ])
    as [_ H].
  destruct H as (records & Hr & _ & _ & Hp); [done |].
  exists records. split; [exact Hr |]. apply Hp. reflexivity.
Defined.

(** X12. The listing is already normalized: feeding the records of an answer
    back to the endpoint returns the same records. *)
Theorem listing_is_idempotent (providers_df records : frame) :
  get_all_providers providers_df = (200%Z, Records records) →
  get_all_providers records = (200%Z, Records records).
Proof.
  intros H. destruct providers_df as [|p df]; [done |].
  rewrite get_all_providers_normalize in H by done.
  injection H as <-. rewrite get_all_providers_normalize.
  - by rewrite normalize_names_idempotent.
  - intros E. apply (f_equal length) in E.
    by rewrite normalize_names_length in E.
Qed.

Lemma listing_is_idempotent_witness :
  ∃ records,
    get_all_providers [ {[ "provider_name" := VStr "Dr. A" ]} ]
    = (200%Z, Records records)
    ∧ get_all_providers records = (200%Z, Records records).
Proof.
  exists (normalize_names [ {[ "provider_name" := VStr "Dr. A" ]} ]).
  assert (get_all_providers [ {[ "provider_name" := VStr "Dr. A" ]} ]
          = (200%Z, Records (normalize_names
                               [ {[ "provider_name" := VStr "Dr. A" ]} ])))
    as H by (by apply get_all_providers_normalize).
  split; [exact H | exact (listing_is_idempotent _ _ H)].
Defined.

Lemma cost_row_Ok (member p r : row) :
  cost_row member p = Ok r ↔
  ∃ payment share,
    calculate_payment p member = Ok (payment, share)
    ∧ r = <["member_share" := VNum share]>
            (<["insurance_payment" := VNum payment]> p).
Proof.
  unfold cost_row. split.
  - intros H. inv_bind H. destruct a as [payment share].
    apply Ok_inj in H as <-. eauto.
  - intros (payment & share & -> & ->). done.
Qed.

Lemma cost_model_Ok (df out : frame) (member : row) :
  cost_model df member = Ok out ↔
  ∃ priced, mapM (cost_row member) df = Ok priced
    ∧ out = normalize_names priced.
Proof.
  unfold cost_model, normalize_names. split.
  - intros H. inv_bind H. exists a. split; [done |].
    destruct (_ && _); by apply Ok_inj in H.
  - intros (priced & -> & ->). simpl. by destruct (_ && _).
Qed.

Lemma has_column_Forall2 (df df' : frame) (c : string) :
  Forall2 (λ p r : row, r !! c = p !! c) df df' →
  has_column df' c = has_column df c.
Proof.
  unfold has_column. induction 1 as [|p r df df' H _ IH]; simpl; [done |].
  by rewrite H, IH.
Qed.

Lemma calculate_payment_numeric (provider member : row) (p : Q * Q) :
  calculate_payment provider member = Ok p →
  pricing_attrs_numeric provider member.
Proof.
  destruct p as [payment share].
  intros (sc & ey & w & e & inv & Hsc & Hey & Hw & He & Hinv & _)
    %calculate_payment_Ok.
  split; repeat constructor; by eapply get_num_Ok_numeric.
Qed.

Lemma calculate_payment_Raise (provider member : row) (e : exn) :
  calculate_payment provider member = Raise e → e = TypeError.
Proof.
  unfold calculate_payment, adj_cost, wait_penalty. intros H.
  apply bind_Raise in H as [H | (? & _ & H)].
  { apply bind_Raise in H as [H | (? & _ & H)]; [by eapply get_num_Raise |].
    apply bind_Raise in H as [H | (? & _ & [=])]. by eapply get_num_Raise. }
  apply bind_Raise in H as [H | (? & _ & H)].
  { apply bind_Raise in H as [H | (? & _ & H)]; [by eapply get_num_Raise |].
    apply bind_Raise in H as [H | (? & _ & [=])]. by eapply get_num_Raise. }
  apply bind_Raise in H as [H | (? & _ & [=])]. by eapply get_num_Raise.
Qed.

(** X13. [cost_model] prices every row in place from that row and the
    member: each output row carries the payment of its input row and the
    member share 0.2 * invested_amount, which is the same number on every
    row, and agrees with its input row outside the two new columns and the
    name columns. *)
Theorem cost_model_prices_rows_in_place (df out : frame) (member : row) :
  cost_model df member = Ok out →
  df ≠ [] →
  ∃ inv, get_num member "invested_amount" 0 = Ok inv
    ∧ Forall2 (λ p r,
         (∃ payment,
            calculate_payment p member = Ok (payment, 0.2 * inv)
            ∧ r !! "insurance_payment" = Some (VNum payment))
         ∧ r !! "member_share" = Some (VNum (0.2 * inv))
         ∧ same_outside (cost_columns ++ ["name"; "provider_name"]) p r)
        df out.
Proof.
  intros (priced & Hp & ->)%cost_model_Ok Hne. apply mapM_Ok in Hp.
  assert (∃ inv, get_num member "invested_amount" 0 = Ok inv) as [inv Hinv].
  { destruct Hp as [|p r ? ? Hr _]; [done |].
    apply cost_row_Ok in Hr as (payment & share & Hpay & _).
    apply calculate_payment_formula in Hpay
      as (_ & _ & inv & _ & _ & _ & Hinv & _). eauto. }
  exists inv. split; [done |].
  assert (Forall2 (λ p r,
            (∃ payment,
               calculate_payment p member = Ok (payment, 0.2 * inv)
               ∧ r !! "insurance_payment" = Some (VNum payment))
            ∧ r !! "member_share" = Some (VNum (0.2 * inv))
            ∧ same_outside cost_columns p r) df priced) as Hrows.
  { eapply Forall2_impl; [exact Hp |]. intros p r Hr. simpl in Hr.
    apply cost_row_Ok in Hr as (payment & share & Hpay & ->).
    pose proof Hpay as (_ & _ & inv' & _ & _ & _ & Hinv' & _ & _ & ->)
      %calculate_payment_formula.
    rewrite Hinv in Hinv'. apply Ok_inj in Hinv' as <-.
    split; [exists payment; split; [done |] |].
    { rewrite lookup_insert_ne by done. apply lookup_insert_eq. }
    split; [apply lookup_insert_eq |].
    intros k Hk. unfold cost_columns in Hk. rewrite !not_elem_of_cons in Hk.
    destruct Hk as (? & ? & _). by rewrite !lookup_insert_ne. }
  unfold normalize_names. destruct (_ && _).
  - apply Forall2_fmap_r. eapply Forall2_impl; [exact Hrows |].
    intros p r (Hpay & Hshare & Hsame).
    destruct Hpay as (payment & Hpay & Hip).
    split; [exists payment; split; [done |] |]; [| split].
    + by rewrite rename_column_other.
    + by rewrite rename_column_other.
    + intros k Hk. rewrite not_elem_of_app, !not_elem_of_cons in Hk.
      destruct Hk as (Hc & ? & ? & _).
      rewrite rename_column_other by done. by apply Hsame.
  - eapply Forall2_impl; [exact Hrows |].
    intros p r (Hpay & Hshare & Hsame). split; [done |]. split; [done |].
    intros k Hk. rewrite not_elem_of_app in Hk. destruct Hk as [Hc _].
    by apply Hsame.
Qed.

Lemma cost_model_prices_rows_in_place_witness :
  ∃ out inv,
    cost_model [ {[ "service_cost" := VNum 100 ]} ] ∅ = Ok out
    ∧ get_num ∅ "invested_amount" 0 = Ok inv
    ∧ Forall2 (λ p r,
         (∃ payment,
            calculate_payment p ∅ = Ok (payment, 0.2 * inv)
            ∧ r !! "insurance_payment" = Some (VNum payment))
         ∧ r !! "member_share" = Some (VNum (0.2 * inv))
         ∧ same_outside (cost_columns ++ ["name"; "provider_name"]) p r)
        [ {[ "service_cost" := VNum 100 ]} ] out.
Proof.
  destruct (calculate_payment_total {[ "service_cost" := VNum 100 ]} ∅)
    as [[payment share] H]; [split; repeat constructor; by intros ? |].
  assert (∃ out, cost_model [ {[ "service_cost" := VNum 100 ]} ] ∅ = Ok out)
    as [out Hout].
  { eexists. apply cost_model_Ok. eexists. split; [| done].
    simpl. unfold cost_row. by rewrite H. }
  destruct (cost_model_prices_rows_in_place _ _ _ Hout) as (inv & Hinv & Hrows);
    [done |].
  exists out, inv. split; [exact Hout |]. split; [exact Hinv | exact Hrows].
Defined.

(** X14. The output of [cost_model] is normalized as the listing endpoint
    normalizes: normalizing it again changes nothing, and when the input has
    no name column every output row has its provider_name under name and no
    provider_name left. *)
Theorem cost_model_output_is_normalized (df out : frame) (member : row) :
  cost_model df member = Ok out →
  normalize_names out = out
  ∧ (has_column df "name" = false →
     Forall2 (λ p r, r !! "name" = p !! "provider_name"
                     ∧ r !! "provider_name" = None) df out).
Proof.
  intros (priced & Hp & ->)%cost_model_Ok.
  split; [apply normalize_names_idempotent |]. intros Hn.
  apply mapM_Ok in Hp.
  assert (Forall2 (λ p r : row, r !! "name" = p !! "name"
                                ∧ r !! "provider_name" = p !! "provider_name")
            df priced) as Hkeys.
  { eapply Forall2_impl; [exact Hp |]. intros p r Hr. simpl in Hr.
    apply cost_row_Ok in Hr as (payment & share & _ & ->).
    by rewrite !lookup_insert_ne. }
  assert (has_column priced "name" = false) as Hn'.
  { rewrite (has_column_Forall2 df priced "name"); [exact Hn |].
    eapply Forall2_impl; [exact Hkeys |]. by intros p r [? _]. }
  pose proof (normalize_names_unnamed priced Hn') as Hprom.
  revert Hprom. generalize (normalize_names priced). intros out Hprom.
  clear Hp Hn Hn'. revert out Hprom.
  induction Hkeys as [|p r df priced [_ Hpn] _ IH]; intros out Hprom.
  - inversion Hprom. constructor.
  - inversion Hprom as [|? r' ? out' (Hname & Hgone & _) Hrest]; subst.
    constructor; [| by apply IH]. split; [by rewrite Hname | done].
Qed.

Lemma cost_model_output_is_normalized_witness :
  ∃ out,
    cost_model [ {[ "provider_name" := VStr "Dr. A" ]} ] ∅ = Ok out
    ∧ normalize_names out = out
    ∧ Forall2 (λ p r : row, r !! "name" = p !! "provider_name"
                            ∧ r !! "provider_name" = None)
        [ {[ "provider_name" := VStr "Dr. A" ]} ] out.
Proof.
  destruct (calculate_payment_total {[ "provider_name" := VStr "Dr. A" ]} ∅)
    as [[payment share] H]; [split; repeat constructor; by intros ? |].
  assert (∃ out, cost_model [ {[ "provider_name" := VStr "Dr. A" ]} ] ∅
                 = Ok out) as [out Hout].
  { eexists. apply cost_model_Ok. eexists. split; [| done].
    simpl. unfold cost_row. by rewrite H. }
  destruct (cost_model_output_is_normalized _ _ _ Hout) as [Hfix Hprom].
  exists out. split; [exact Hout |]. split; [exact Hfix |].
  apply Hprom. reflexivity.
Defined.

(** X15. [cost_model] returns exactly when, in every row and in the member,
    each numeric field the payment reads is a number or a flag where present;
    the only exception it raises is a TypeError. *)
Theorem cost_model_success_and_errors (df : frame) (member : row) :
  ((∃ out, cost_model df member = Ok out) ↔
     Forall (λ p, pricing_attrs_numeric p member) df)
  ∧ (∀ e, cost_model df member = Raise e → e = TypeError).
Proof.
  split; [split |].
  - intros [out (priced & Hp & _)%cost_model_Ok]. apply mapM_Ok in Hp.
    apply Forall2_exists_l in Hp. eapply Forall_impl; [exact Hp |].
    intros p [r (payment & share & Hpay & _)%cost_row_Ok].
    by eapply calculate_payment_numeric.
  - intros Hdf.
    destruct (mapM_total (cost_row member) df) as [priced Hp].
    { eapply Forall_impl; [exact Hdf |].
      intros p [[payment share] Hpay]%calculate_payment_total.
      eexists. apply cost_row_Ok. eauto. }
    eexists. apply cost_model_Ok. eauto.
  - intros e H. unfold cost_model in H.
    apply bind_Raise in H as [H | (priced & _ & H)].
    + apply mapM_Raise in H as (p & _ & Hp). unfold cost_row in Hp.
      apply bind_Raise in Hp as [Hp | ([? ?] & _ & [=])].
      by eapply calculate_payment_Raise.
    + by destruct (_ && _).
Qed.

Lemma cost_model_success_and_errors_witness :
  (∃ out, cost_model [ {[ "service_cost" := VNum 100 ]} ] ∅ = Ok out)
  ∧ (∀ e, cost_model [ {[ "service_cost" := VStr "free" ]} ] ∅ = Raise e →
          e = TypeError).
Proof.
  split.
  - apply (cost_model_success_and_errors [ {[ "service_cost" := VNum 100 ]} ]).
    repeat constructor; by intros ?.
  - apply (cost_model_success_and_errors
             [ {[ "service_cost" := VStr "free" ]} ] ∅).
Defined.

(** ** GeoFilter: further properties *)

Section GeoFilterMore.

Variable great_circle : value * value → value * value → result Q.

Abbreviation distance := (provider_distance great_circle).
Abbreviation geo := (find_providers_in_radius great_circle).

Lemma geo_step_inv (lat lon maxv : value) (acc acc' : frame) (p : row) :
  geo_step great_circle lat lon maxv acc p = Ok acc' →
  ∃ d limit, distance lat lon p = Ok d ∧ to_num maxv = Ok limit
    ∧ acc' = (acc ++ within_radius provider_data limit [(p, d)])%list.
Proof.
  unfold geo_step. intros H. inv_bind H. inv_bind H.
  exists a, a0. split; [done |]. split; [done |].
  unfold within_radius. simpl.
  destruct (Qle_bool a a0); apply Ok_inj in H as <-; [done |].
  by rewrite app_nil_r.
Qed.

Lemma geo_loop_inv (lat lon maxv : value) (df acc out : frame) :
  geo_loop great_circle lat lon maxv acc df = Ok out →
  df ≠ [] →
  ∃ limit dists, to_num maxv = Ok limit
    ∧ Forall2 (λ p d, distance lat lon p = Ok d) df dists.
Proof.
  revert acc. induction df as [|p df IH]; intros acc H Hne; [done |].
  simpl in H. inv_bind H.
  apply geo_step_inv in Ha as (d & limit & Hd & Hl & ->).
  exists limit. destruct df as [|p' df'].
  - exists [d]. split; [done |]. by repeat constructor.
  - destruct (IH _ H) as (limit' & dists & _ & Hds); [done |].
    exists (d :: dists). split; [done |]. by constructor.
Qed.

(** When the filter returns: nothing to examine, or a numeric limit and a
    distance for every provider. *)
Lemma geo_Ok (lat lon maxv : value) (df out : frame) :
  geo lat lon df maxv = Ok out ↔
  (df = [] ∧ out = [])
  ∨ (df ≠ [] ∧ ∃ limit dists,
       to_num maxv = Ok limit
       ∧ Forall2 (λ p d, distance lat lon p = Ok d) df dists
       ∧ out = within_radius provider_data limit (zip df dists)).
Proof.
  unfold find_providers_in_radius. split.
  - intros H. destruct df as [|p df].
    + left. split; [done |]. simpl in H. by apply Ok_inj in H.
    + right. split; [done |].
      destruct (geo_loop_inv _ _ _ _ _ _ H) as (limit & dists & Hl & Hd);
        [done |].
      exists limit, dists. split; [done |]. split; [done |].
      rewrite (geo_loop_Ok great_circle lat lon maxv limit _ dists [] Hl Hd) in H.
      by apply Ok_inj in H.
  - intros [[-> ->] | (_ & limit & dists & Hl & Hd & ->)]; [done |].
    by rewrite (geo_loop_Ok great_circle lat lon maxv limit _ dists [] Hl Hd).
Qed.

Lemma within_radius_sublist (limit : Q) (l : list (row * Q)) :
  ∃ kept, kept `sublist_of` l.*1
    ∧ Forall2 (same_outside geo_columns) kept
        (within_radius provider_data limit l).
Proof.
  induction l as [|[p d] l (kept & Hsub & Hsame)].
  - exists []. split; [done | constructor].
  - unfold within_radius in *. simpl.
    destruct (Qle_bool d limit).
    + exists (p :: kept). split; [by constructor |]. simpl.
      constructor; [| done].
      intros k Hk. unfold geo_columns in Hk. rewrite !not_elem_of_cons in Hk.
      destruct Hk as (? & ? & ? & _). unfold provider_data.
      by rewrite !lookup_insert_ne.
    + exists kept. split; [by constructor | done].
Qed.

(** X16. The GeoFilter keeps the order and the content of the provider
    records: its output is, row for row, a sublist of the dataset in dataset
    order, each row unchanged outside distance_km, distance_miles and
    drive_time_minutes; so it never returns more rows than there are
    providers. *)
Theorem geo_filter_keeps_order_and_fields
    (lat lon maxv : value) (df out : frame) :
  geo lat lon df maxv = Ok out →
  (length out <= length df)%nat
  ∧ ∃ kept, kept `sublist_of` df
      ∧ Forall2 (same_outside geo_columns) kept out.
Proof.
  intros [[-> ->] | (_ & limit & dists & _ & Hd & ->)]%geo_Ok.
  { split; [done |]. exists []. split; [done | constructor]. }
  destruct (within_radius_sublist limit (zip df dists)) as (kept & Hsub & Hsame).
  rewrite fst_zip in Hsub by (by rewrite (Forall2_length _ _ _ Hd)).
  split; [| by exists kept].
  rewrite <- (Forall2_length _ _ _ Hsame). by apply sublist_length.
Qed.

End GeoFilterMore.

Lemma geo_filter_keeps_order_and_fields_witness :
  ∃ out,
    find_providers_in_radius sample_distance (VNum 0) (VNum 0)
      [sample_provider "near" 3; sample_provider "far" 11] (VNum 10) = Ok out
    ∧ (length out <= 2)%nat
    ∧ ∃ kept, kept `sublist_of` [sample_provider "near" 3;
                                 sample_provider "far" 11]
        ∧ Forall2 (same_outside geo_columns) kept out.
Proof.
  assert (∃ out,
            find_providers_in_radius sample_distance (VNum 0) (VNum 0)
              [sample_provider "near" 3; sample_provider "far" 11] (VNum 10)
            = Ok out) as [out Hout].
  { eexists. unfold find_providers_in_radius.
    apply (geo_loop_Ok sample_distance (VNum 0) (VNum 0) (VNum 10) 10 _ [3; 11]);
      [reflexivity | repeat constructor]. }
  exists out. split; [exact Hout |].
  exact (geo_filter_keeps_order_and_fields sample_distance _ _ _ _ _ Hout).
Defined.

Section GeoFilterErrors.

Variable great_circle : value * value → value * value → result Q.

Abbreviation distance := (provider_distance great_circle).
Abbreviation geo := (find_providers_in_radius great_circle).

Lemma provider_distance_Raise (lat lon : value) (p : row) (e : exn) :
  distance lat lon p = Raise e →
  e = KeyError "latitude" ∨ e = KeyError "longitude"
  ∨ ∃ a b, great_circle a b = Raise e.
Proof.
  unfold provider_distance, getitem. intros H.
  destruct (p !! "latitude") as [la|]; [| left; simpl in H; congruence].
  destruct (p !! "longitude") as [lo|]; [| right; left; simpl in H; congruence].
  right. right. simpl in H. eauto.
Qed.

Lemma geo_loop_Raise (lat lon maxv : value) (df acc : frame) (e : exn) :
  geo_loop great_circle lat lon maxv acc df = Raise e →
  e = KeyError "latitude" ∨ e = KeyError "longitude" ∨ e = TypeError
  ∨ ∃ a b, great_circle a b = Raise e.
Proof.
  revert acc. induction df as [|p df IH]; intros acc H; simpl in H; [done |].
  apply bind_Raise in H as [H | (acc' & _ & H)]; [| by eapply IH].
  unfold geo_step in H.
  apply bind_Raise in H as [H | (d & _ & H)].
  { apply provider_distance_Raise in H as [-> | [-> | H]]; auto. }
  apply bind_Raise in H as [H | (limit & _ & H)].
  - destruct maxv; simpl in H; try done. injection H as <-. auto.
  - by destruct (Qle_bool d limit).
Qed.

(** X17. On an empty provider dataset the GeoFilter returns the empty list
    without looking at the limit.  On a non-empty one it returns exactly when
    the limit is a number and every provider has a distance; and what it
    raises otherwise is KeyError('latitude'), KeyError('longitude'), a
    TypeError for the limit, or the exception of the distance function. *)
Theorem geo_filter_success_and_errors (lat lon maxv : value) (df : frame) :
  geo lat lon [] maxv = Ok []
  ∧ (df ≠ [] →
     ((∃ out, geo lat lon df maxv = Ok out) ↔
        (∃ limit, to_num maxv = Ok limit)
        ∧ Forall (λ p, ∃ d, distance lat lon p = Ok d) df))
  ∧ (∀ e, geo lat lon df maxv = Raise e →
       e = KeyError "latitude" ∨ e = KeyError "longitude" ∨ e = TypeError
       ∨ ∃ a b, great_circle a b = Raise e).
Proof.
  split; [done |]. split.
  - intros Hne. split.
    + intros [out [[-> _] | (_ & limit & dists & Hl & Hd & _)]%geo_Ok];
        [done |].
      split; [by exists limit |]. by eapply Forall2_exists_l.
    + intros [[limit Hl] [dists Hd]%Forall_exists_Forall2].
      eexists. apply geo_Ok. right. split; [done |].
      exists limit, dists. eauto.
  - intros e. apply geo_loop_Raise.
Qed.

Lemma Forall2_functional {A B : Type} (f : A → result B) (l : list A)
    (k k' : list B) :
  Forall2 (λ a b, f a = Ok b) l k → Forall2 (λ a b, f a = Ok b) l k' → k = k'.
Proof.
  intros H. revert k'. induction H as [|a b l k Hb _ IH]; intros k' H'.
  - by inversion H'.
  - inversion H' as [|? b' ? k'' Hb' Hk]; subst.
    rewrite Hb in Hb'. apply Ok_inj in Hb' as <-. f_equal. by apply IH.
Qed.

Lemma filter_sublist_weaken {A : Type} (f g : A → bool) (l : list A) :
  (∀ x, f x = true → g x = true) →
  List.filter f l `sublist_of` List.filter g l.
Proof.
  intros H. induction l as [|x l IH]; simpl; [done |].
  destruct (f x) eqn:E.
  - rewrite (H x E). by constructor.
  - destruct (g x); [by constructor | done].
Qed.

(** X18. Widening the radius only adds providers: for two numeric limits
    limit <= limit', the list kept at [limit] is a sublist, in order, of the
    list kept at [limit']. *)
Theorem geo_filter_is_monotone_in_the_radius
    (lat lon maxv maxv' : value) (limit limit' : Q) (df out out' : frame) :
  to_num maxv = Ok limit → to_num maxv' = Ok limit' → limit <= limit' →
  geo lat lon df maxv = Ok out → geo lat lon df maxv' = Ok out' →
  out `sublist_of` out'.
Proof.
  intros Hl Hl' Hle
    [[-> ->] | (Hne & l1 & dists & Hl1 & Hd & ->)]%geo_Ok
    [[E ->] | (_ & l2 & dists' & Hl2 & Hd' & ->)]%geo_Ok;
    try done.
  assert (l1 = limit) as -> by congruence.
  assert (l2 = limit') as -> by congruence.
  rewrite <- (Forall2_functional _ _ _ _ Hd Hd').
  unfold within_radius. apply fmap_sublist, filter_sublist_weaken.
  intros [p d] H. simpl in *. apply Qle_bool_iff in H. apply Qle_bool_iff. lra.
Qed.

(** X19. Every row the GeoFilter returns is within the member's travel
    bounds: distance_km at most the limit, distance_miles at most
    0.621371 * limit and drive_time_minutes at most 1.2 * limit. *)
Theorem kept_providers_are_within_travel_bounds
    (lat lon maxv : value) (limit : Q) (df out : frame) :
  to_num maxv = Ok limit →
  geo lat lon df maxv = Ok out →
  Forall (λ r, ∃ km miles minutes,
            r !! "distance_km" = Some (VNum km) ∧ km <= limit
            ∧ r !! "distance_miles" = Some (VNum miles)
            ∧ miles <= 0.621371 * limit
            ∧ r !! "drive_time_minutes" = Some (VNum minutes)
            ∧ minutes <= 1.2 * limit) out.
Proof.
  intros Hl [[_ ->] | (_ & l1 & dists & Hl1 & _ & ->)]%geo_Ok; [constructor |].
  assert (l1 = limit) as -> by congruence.
  apply Forall_forall. intros r (p & d & _ & Hd & ->)%elem_of_within_radius.
  destruct (provider_data_fields p d) as (Hk & Hm & Ht).
  exists d, (d * 0.621371), (d / 50 * 60).
  split; [done |]. split; [done |]. split; [done |]. split; [lra |].
  split; [done |].
  assert (d / 50 * 60 == d * 1.2) as -> by field. lra.
Qed.

End GeoFilterErrors.

Lemma geo_filter_success_and_errors_witness :
  (∃ out, find_providers_in_radius sample_distance (VNum 0) (VNum 0)
            [sample_provider "near" 3] (VNum 10) = Ok out)
  ∧ find_providers_in_radius sample_distance (VNum 0) (VNum 0) []
      (VStr "ten") = Ok [].
Proof.
  split.
  - apply (geo_filter_success_and_errors sample_distance (VNum 0) (VNum 0)
             (VNum 10) [sample_provider "near" 3]); [done |].
    split; [by exists 10 |]. repeat constructor. by exists 3.
  - apply (geo_filter_success_and_errors sample_distance (VNum 0) (VNum 0)
             (VStr "ten") []).
Defined.

Lemma geo_filter_is_monotone_in_the_radius_witness :
  ∃ out out',
    find_providers_in_radius sample_distance (VNum 0) (VNum 0)
      [sample_provider "near" 3; sample_provider "far" 11] (VNum 10) = Ok out
    ∧ find_providers_in_radius sample_distance (VNum 0) (VNum 0)
        [sample_provider "near" 3; sample_provider "far" 11] (VNum 20)
      = Ok out'
    ∧ out `sublist_of` out'.
Proof.
  assert (Forall2 (λ p d, provider_distance sample_distance (VNum 0) (VNum 0) p
                          = Ok d)
            [sample_provider "near" 3; sample_provider "far" 11] [3; 11])
    as Hd by repeat constructor.
  pose proof (geo_loop_Ok sample_distance (VNum 0) (VNum 0) (VNum 10) 10 _ _ []
                eq_refl Hd) as H.
  pose proof (geo_loop_Ok sample_distance (VNum 0) (VNum 0) (VNum 20) 20 _ _ []
                eq_refl Hd) as H'.
  eexists _, _. split; [exact H |]. split; [exact H' |].
  apply (geo_filter_is_monotone_in_the_radius sample_distance
           (VNum 0) (VNum 0) (VNum 10) (VNum 20) 10 20
           [sample_provider "near" 3; sample_provider "far" 11]);
    [reflexivity | reflexivity | lra | exact H | exact H'].
Defined.

Lemma kept_providers_are_within_travel_bounds_witness :
  ∃ out,
    find_providers_in_radius sample_distance (VNum 0) (VNum 0)
      [sample_provider "near" 3; sample_provider "far" 11] (VNum 10) = Ok out
    ∧ Forall (λ r, ∃ km miles minutes,
                r !! "distance_km" = Some (VNum km) ∧ km <= 10
                ∧ r !! "distance_miles" = Some (VNum miles)
                ∧ miles <= 0.621371 * 10
                ∧ r !! "drive_time_minutes" = Some (VNum minutes)
                ∧ minutes <= 1.2 * 10) out.
Proof.
  assert (Forall2 (λ p d, provider_distance sample_distance (VNum 0) (VNum 0) p
                          = Ok d)
            [sample_provider "near" 3; sample_provider "far" 11] [3; 11])
    as Hd by repeat constructor.
  pose proof (geo_loop_Ok sample_distance (VNum 0) (VNum 0) (VNum 10) 10 _ _ []
                eq_refl Hd) as H.
  eexists. split; [exact H |].
  apply (kept_providers_are_within_travel_bounds sample_distance
           (VNum 0) (VNum 0) (VNum 10) 10
           [sample_provider "near" 3; sample_provider "far" 11]);
    [reflexivity | exact H].
Defined.

(** ** Ranker: further properties *)

Lemma set_priority_prioritized (primary secondary : value) (r r' : row) :
  set_priority primary secondary r = Ok r' ↔ prioritized primary secondary r r'.
Proof.
  unfold set_priority, prioritized, getitem. split.
  - intros H. destruct (r !! "specialty") as [s|]; [| done].
    simpl in H. apply Ok_inj in H as <-. eauto.
  - intros (s & -> & ->). done.
Qed.

Lemma specialty_priority_range (primary secondary s : value) :
  (specialty_priority primary secondary s = 1
   ∨ specialty_priority primary secondary s = 2
   ∨ specialty_priority primary secondary s = 3)%Z.
Proof. unfold specialty_priority. repeat case_match; auto. Qed.

Lemma specialty_priority_one (primary secondary s : value) :
  specialty_priority primary secondary s = 1%Z ↔ value_eqb s primary = true.
Proof. unfold specialty_priority. repeat case_match; split; done. Qed.

Lemma assign_priority_functional (df d1 d2 : frame) (member : row) :
  assign_priority df member = Ok d1 → assign_priority df member = Ok d2 →
  d1 = d2.
Proof. congruence. Qed.

(** The sorted frame behind an answer of the ranker. *)
Lemma rank_sorted_frame (df out : frame) (member : row) (top_n : nat) :
  rank_with_specialty_priority df member top_n = Ok out →
  ∃ primary secondary df' sorted,
    member !! "primary_specialty_needed" = Some primary
    ∧ member !! "secondary_specialty_needed" = Some secondary
    ∧ Forall2 (prioritized primary secondary) df df'
    ∧ sorted ≡ₚ df' ∧ Sorted row_le sorted
    ∧ out = take top_n sorted.
Proof.
  intros (df' & rows & Hdf & Hrows & ->)%rank_Ok.
  apply assign_priority_Ok in Hdf as (primary & secondary & Hp & Hs & Hset).
  exists primary, secondary, df', ((sort_rows rows).*2).
  split; [done |]. split; [done |]. split.
  { eapply Forall2_impl; [exact Hset |]. intros r r'.
    apply set_priority_prioritized. }
  apply mapM_keyed in Hrows as [Hk <-].
  split; [by rewrite sort_rows_Permutation |]. split; [| done].
  apply well_keyed_sorted; [| apply sort_rows_sorted].
  unfold well_keyed. by rewrite sort_rows_Permutation.
Qed.

(** X20. The ranker only rearranges and truncates: its working frame is the
    input with a priority column of 1, 2 or 3 set in each row and nothing
    else changed, and the output followed by the rows cut off is a
    permutation of that frame; with topN at least the input length nothing is
    cut off. *)
Theorem ranker_rearranges_the_input
    (df out : frame) (member : row) (top_n : nat) :
  rank_with_specialty_priority df member top_n = Ok out →
  ∃ df' rest,
    Forall2 (λ r r', same_outside ["specialty_priority"] r r'
                     ∧ ∃ p, r' !! "specialty_priority" = Some (VNum (inject_Z p))
                         ∧ (p = 1 ∨ p = 2 ∨ p = 3)%Z) df df'
    ∧ (out ++ rest)%list ≡ₚ df'
    ∧ ((length df <= top_n)%nat → rest = []).
Proof.
  intros (primary & secondary & df' & sorted & _ & _ & Hset & Hperm & _ & ->)
    %rank_sorted_frame.
  exists df', (drop top_n sorted). split; [| split].
  - eapply Forall2_impl; [exact Hset |]. intros r r' (s & Hs & ->). split.
    + intros k Hk. rewrite not_elem_of_cons in Hk. destruct Hk as [? _].
      by rewrite lookup_insert_ne.
    + eexists. split; [apply lookup_insert_eq |].
      apply specialty_priority_range.
  - by rewrite take_drop.
  - intros Hn. apply drop_ge.
    rewrite (Permutation_length Hperm), <- (Forall2_length _ _ _ Hset). done.
Qed.

Lemma ranker_rearranges_the_input_witness :
  ∃ out df' rest,
    rank_with_specialty_priority sample_scored_frame sample_member 3 = Ok out
    ∧ Forall2 (λ r r', same_outside ["specialty_priority"] r r'
                       ∧ ∃ p, r' !! "specialty_priority"
                              = Some (VNum (inject_Z p))
                           ∧ (p = 1 ∨ p = 2 ∨ p = 3)%Z)
        sample_scored_frame df'
    ∧ (out ++ rest)%list ≡ₚ df'.
Proof.
  destruct (rank_total sample_scored_frame sample_member 3) as [out Hout];
    [by eexists | by eexists | repeat constructor; by eexists |].
  destruct (ranker_rearranges_the_input _ _ _ _ Hout)
    as (df' & rest & Hset & Hperm & _).
  exists out, df', rest. split; [exact Hout |]. split; [exact Hset | exact Hperm].
Defined.

Lemma key_le_priority (a b : sort_key) :
  key_le a b → key_priority a <= key_priority b.
Proof. unfold key_le. intros [H | [[H _] | [[H _] | [H _]]]]; lra. Qed.

Lemma priority_le_trans (a b c : row) :
  priority_le a b → priority_le b c → priority_le a c.
Proof.
  intros (ka & kb & Ha & Hb & H1) (kb' & kc & Hb' & Hc & H2).
  rewrite Hb in Hb'. apply Ok_inj in Hb' as <-.
  exists ka, kc. split; [done |]. split; [done | lra].
Qed.

Lemma Sorted_weaken {A : Type} (R R' : A → A → Prop) (l : list A) :
  (∀ x y, R x y → R' x y) → Sorted R l → Sorted R' l.
Proof.
  intros HR. induction 1 as [|x l _ IH Hx]; constructor; [done |].
  destruct Hx; constructor. by apply HR.
Qed.

Lemma Sorted_priority (l : frame) :
  Sorted row_le l → StronglySorted priority_le l.
Proof.
  intros H. apply Sorted_StronglySorted.
  { intros a b c. apply priority_le_trans. }
  eapply Sorted_weaken; [| exact H].
  intros a b (ka & kb & Ha & Hb & Hle). exists ka, kb.
  split; [done |]. split; [done | by apply key_le_priority].
Qed.

Lemma elem_of_take_l {A : Type} (x : A) (n : nat) (l : list A) :
  x ∈ take n l → x ∈ l.
Proof.
  intros H. rewrite <- (take_drop n l). apply elem_of_app. by left.
Qed.

Lemma StronglySorted_take {A : Type} (R : A → A → Prop) (n : nat) (l : list A) :
  StronglySorted R l → StronglySorted R (take n l).
Proof.
  intros H. revert n. induction H as [|x l Hl IH Hx]; intros [|n]; simpl;
    try constructor; [apply IH |].
  eapply Forall_forall. intros y Hy. rewrite Forall_forall in Hx.
  apply Hx. by eapply elem_of_take_l.
Qed.

Lemma prioritized_priority (primary secondary : value) (r r' : row)
    (k : sort_key) :
  prioritized primary secondary r r' → sort_key_of r' = Ok k →
  ∃ s, r' !! "specialty" = Some s
    ∧ key_priority k == inject_Z (specialty_priority primary secondary s).
Proof.
  intros (s & Hs & ->) Hk. exists s.
  split; [by rewrite lookup_insert_ne |].
  unfold sort_key_of, column_num, getitem in Hk.
  rewrite lookup_insert_eq in Hk. simpl in Hk.
  inv_bind Hk. inv_bind Hk. inv_bind Hk. by apply Ok_inj in Hk as <-.
Qed.

(** X21. Providers of the member's primary specialty are ranked first: in the
    ranker's output, every row that stands before a row of the primary
    specialty is itself of the primary specialty. *)
Theorem primary_specialty_is_ranked_first
    (df out : frame) (member a b : row) (primary : value) (top_n : nat)
    (l1 l2 l3 : frame) :
  rank_with_specialty_priority df member top_n = Ok out →
  member !! "primary_specialty_needed" = Some primary →
  out = (l1 ++ a :: l2 ++ b :: l3)%list →
  has_specialty primary b → has_specialty primary a.
Proof.
  intros (primary' & secondary & df' & sorted & Hp & _ & Hset & Hperm & Hsorted
          & ->)%rank_sorted_frame Hprim Hout (sb & Hsb & Hb).
  rewrite Hprim in Hp. apply (inj Some) in Hp as <-.
  assert (∀ x, x ∈ take top_n sorted → ∃ r, prioritized primary secondary r x)
    as Hrows.
  { intros x Hx%elem_of_take_l. rewrite Hperm in Hx.
    apply list_elem_of_lookup in Hx as [i Hi].
    destruct (Forall2_lookup_r _ _ _ _ _ Hset Hi) as (r & _ & Hr). eauto. }
  pose proof (StronglySorted_take _ top_n _ (Sorted_priority _ Hsorted)) as Hss.
  rewrite Hout in Hss, Hrows.
  apply StronglySorted_app_1_r in Hss.
  apply StronglySorted_inv in Hss as [_ Hall].
  rewrite Forall_app, Forall_cons in Hall.
  destruct Hall as (_ & (ka & kb & Hka & Hkb & Hle) & _).
  destruct (Hrows a) as [ra Hra]; [set_solver |].
  destruct (Hrows b) as [rb Hrb]; [set_solver |].
  destruct (prioritized_priority _ _ _ _ _ Hra Hka) as (sa & Hsa & Ea).
  destruct (prioritized_priority _ _ _ _ _ Hrb Hkb) as (sb' & Hsb' & Eb).
  rewrite Hsb in Hsb'. apply (inj Some) in Hsb' as <-.
  exists sa. split; [done |].
  apply (specialty_priority_one primary secondary sa).
  apply (specialty_priority_one primary secondary sb) in Hb.
  rewrite Hb in Eb. rewrite Ea, Eb in Hle.
  change (inject_Z 1) with 1 in Hle.
  destruct (specialty_priority_range primary secondary sa) as [E | [E | E]];
    [done | |]; rewrite E in Hle; by compute in Hle.
Qed.

Lemma primary_specialty_is_ranked_first_witness :
  ∃ out a b,
    rank_with_specialty_priority
      [sample_scored "B" "Cardiology" 3.5 2 100;
       sample_scored "C" "Cardiology" 3.5 2 100] sample_member 2 = Ok out
    ∧ out = ([] ++ a :: [] ++ b :: [])%list
    ∧ has_specialty (VStr "Cardiology") b
    ∧ has_specialty (VStr "Cardiology") a.
Proof.
  set (B := sample_scored "B" "Cardiology" 3.5 2 100).
  set (C := sample_scored "C" "Cardiology" 3.5 2 100).
  set (B' := <["specialty_priority" := VNum (inject_Z 1)]> B).
  set (C' := <["specialty_priority" := VNum (inject_Z 1)]> C).
  assert (sort_key_of B' = Ok (SortKey 1 3.5 2 100)) as HB by reflexivity.
  assert (sort_key_of C' = Ok (SortKey 1 3.5 2 100)) as HC by reflexivity.
  assert (assign_priority [B; C] sample_member = Ok [B'; C']) as Hassign
    by reflexivity.
  assert (has_specialty (VStr "Cardiology") C') as HsC
    by (exists (VStr "Cardiology"); split; reflexivity).
  clearbody B' C'.
  assert (rank_with_specialty_priority [B; C] sample_member 2 = Ok [B'; C'])
    as Hrank.
  { apply rank_Ok.
    exists [B'; C'], [(SortKey 1 3.5 2 100, B'); (SortKey 1 3.5 2 100, C')].
    split; [exact Hassign |]. split; [| reflexivity].
    simpl. unfold keyed. rewrite HB, HC. reflexivity. }
  exists [B'; C'], B', C'. split; [exact Hrank |]. split; [reflexivity |].
  split; [exact HsC |].
  exact (primary_specialty_is_ranked_first [B; C] [B'; C'] sample_member B' C'
           (VStr "Cardiology") 2 [] [] [] Hrank eq_refl eq_refl HsC).
Defined.

(** X22. Truncation is consistent: the answer for a smaller topN is the
    beginning of the answer for a larger one, so raising topN only appends
    rows. *)
Theorem smaller_top_n_is_a_prefix
    (df out out' : frame) (member : row) (n n' : nat) :
  (n <= n')%nat →
  rank_with_specialty_priority df member n = Ok out →
  rank_with_specialty_priority df member n' = Ok out' →
  out = take n out'.
Proof.
  intros Hn (d1 & rows1 & Hd1 & Hr1 & ->)%rank_Ok
            (d2 & rows2 & Hd2 & Hr2 & ->)%rank_Ok.
  rewrite Hd1 in Hd2. apply Ok_inj in Hd2 as <-.
  rewrite Hr1 in Hr2. apply Ok_inj in Hr2 as <-.
  rewrite take_take. f_equal. lia.
Qed.

Lemma smaller_top_n_is_a_prefix_witness :
  ∃ out out',
    rank_with_specialty_priority sample_scored_frame sample_member 2 = Ok out
    ∧ rank_with_specialty_priority sample_scored_frame sample_member 10
      = Ok out'
    ∧ out = take 2 out'.
Proof.
  destruct (rank_total sample_scored_frame sample_member 2) as [out Hout];
    [by eexists | by eexists | repeat constructor; by eexists |].
  destruct (rank_total sample_scored_frame sample_member 10) as [out' Hout'];
    [by eexists | by eexists | repeat constructor; by eexists |].
  exists out, out'. split; [exact Hout |]. split; [exact Hout' |].
  apply (smaller_top_n_is_a_prefix sample_scored_frame out out' sample_member
           2 10); [lia | exact Hout | exact Hout'].
Defined.

Lemma column_num_insert_ne (r : row) (k c : string) (v : value) :
  k ≠ c → column_num (<[k := v]> r) c = column_num r c.
Proof. intros H. unfold column_num, getitem. by rewrite lookup_insert_ne. Qed.

Lemma keyed_prioritized_rankable (primary secondary : value) (r r' : row)
    (kr : sort_key * row) :
  prioritized primary secondary r r' → keyed r' = Ok kr → rankable r.
Proof.
  intros (s & Hs & ->) Hk. split; [by eexists |].
  unfold keyed, sort_key_of in Hk.
  inv_bind Hk. inv_bind Ha. inv_bind Ha. inv_bind Ha. inv_bind Ha.
  rewrite column_num_insert_ne in Ha1, Ha2, Ha3 by done.
  repeat constructor; by eexists.
Qed.

Lemma rankable_has_cells (r : row) :
  rankable r → has_cells ("specialty" :: sort_columns) r.
Proof.
  intros [Hs Hc]. constructor; [done |].
  eapply Forall_impl; [exact Hc |]. intros c [q Hq].
  unfold column_num, getitem in Hq. by destruct (r !! c).
Qed.

Lemma sort_key_of_missing (r : row) (p : value) (q : Q)
    (before after : list string) (c : string) :
  sort_columns = (before ++ c :: after)%list →
  has_numbers before r → r !! c = None → to_num p = Ok q →
  sort_key_of (<["specialty_priority" := p]> r) = Raise (KeyError c).
Proof.
  intros Hsplit Hb Hc Hp. unfold has_numbers in Hb.
  unfold sort_key_of, column_num, getitem.
  rewrite lookup_insert_eq. simpl. rewrite Hp. simpl.
  destruct before as [|b1 [|b2 [|b3 before]]]; injection Hsplit as <-.
  - rewrite !lookup_insert_ne by done. by rewrite Hc.
  - subst. apply Forall_cons in Hb as [[x Hx] _].
    rewrite !lookup_insert_ne by done. rewrite Hx. simpl. by rewrite Hc.
  - subst. rewrite !Forall_cons in Hb. destruct Hb as ([x Hx] & [y Hy] & _).
    rewrite !lookup_insert_ne by done. rewrite Hx. simpl. rewrite Hy. simpl.
    by rewrite Hc.
  - by destruct before.
Qed.

Lemma mapM_head_Raise {A B : Type} (f : A → result B) (a : A) (l : list A)
    (e : exn) :
  f a = Raise e → mapM f (a :: l) = Raise e.
Proof. intros H. simpl. by rewrite H. Qed.

Lemma assign_priority_total (df : frame) (member : row)
    (primary secondary : value) :
  member !! "primary_specialty_needed" = Some primary →
  member !! "secondary_specialty_needed" = Some secondary →
  Forall (λ r, is_Some (r !! "specialty")) df →
  ∃ df', assign_priority df member = Ok df'
    ∧ Forall2 (prioritized primary secondary) df df'.
Proof.
  intros Hp Hs Hdf.
  assert (∃ df', Forall2 (prioritized primary secondary) df df') as [df' Hdf'].
  { induction Hdf as [|r df [s Hr] _ [df' IH]]; [by exists [] |].
    eexists (_ :: df'). constructor; [| exact IH]. by exists s. }
  exists df'. split; [| done]. apply assign_priority_Ok.
  exists primary, secondary. split; [done |]. split; [done |].
  eapply Forall2_impl; [exact Hdf' |]. intros r r' Hr.
  by apply set_priority_prioritized.
Qed.

(** X23. What the ranker needs, and which [KeyError] it raises first.  When
    it returns, the member names a primary and a secondary specialty need
    and every row has a specialty and a cell in each sort column.  A member
    without primary_specialty_needed makes it raise that [KeyError] whatever
    the frame, and one with it but without secondary_specialty_needed the
    other.  With both named, a frame with rows but without a specialty column
    raises [KeyError] for specialty; and a frame with rows, each with a
    specialty, raises [KeyError] for the first sort column that is absent,
    the sort columns before it holding numbers. *)
Theorem ranker_requirements_and_key_errors
    (df : frame) (member : row) (top_n : nat) :
  ((∃ out, rank_with_specialty_priority df member top_n = Ok out) →
     is_Some (member !! "primary_specialty_needed")
     ∧ is_Some (member !! "secondary_specialty_needed")
     ∧ Forall (has_cells ("specialty" :: sort_columns)) df)
  ∧ (member !! "primary_specialty_needed" = None →
     rank_with_specialty_priority df member top_n
     = Raise (KeyError "primary_specialty_needed"))
  ∧ (is_Some (member !! "primary_specialty_needed") →
     member !! "secondary_specialty_needed" = None →
     rank_with_specialty_priority df member top_n
     = Raise (KeyError "secondary_specialty_needed"))
  ∧ (is_Some (member !! "primary_specialty_needed") →
     is_Some (member !! "secondary_specialty_needed") →
     df ≠ [] →
     (has_column df "specialty" = false →
      rank_with_specialty_priority df member top_n
      = Raise (KeyError "specialty"))
     ∧ (∀ before c after,
          Forall (λ r, is_Some (r !! "specialty")) df →
          sort_columns = (before ++ c :: after)%list →
          Forall (has_numbers before) df →
          has_column df c = false →
          rank_with_specialty_priority df member top_n
          = Raise (KeyError c))).
Proof.
  split; [| split; [| split]].
  - intros [out (df' & rows & Hdf & Hrows & _)%rank_Ok].
    apply assign_priority_Ok in Hdf as (p & s & Hp & Hs & Hset).
    split; [by eexists |]. split; [by eexists |].
    apply mapM_Ok in Hrows. clear Hp Hs. revert rows Hrows.
    induction Hset as [|r r' df df' Hr _ IH]; intros rows Hrows.
    + constructor.
    + inversion Hrows as [|? kr ? rows' Hkr Hrest]; subst.
      constructor; [| by eapply IH].
      apply set_priority_prioritized in Hr. apply rankable_has_cells.
      by eapply keyed_prioritized_rankable.
  - unfold rank_with_specialty_priority, assign_priority, getitem.
    by intros ->.
  - unfold rank_with_specialty_priority, assign_priority, getitem.
    intros [p ->] ->. done.
  - intros [p Hp] [s Hs] Hne. destruct df as [|r df]; [done |]. split.
    + intros Hcol%has_column_false. apply Forall_cons in Hcol as [Hr _].
      unfold rank_with_specialty_priority, assign_priority, getitem.
      rewrite Hp, Hs. simpl. unfold set_priority, getitem. by rewrite Hr.
    + intros before c after Hsp Hsplit Hnum Hcol%has_column_false.
      apply Forall_cons in Hcol as [Hc _].
      apply Forall_cons in Hnum as [Hb _].
      destruct (assign_priority_total (r :: df) member p s Hp Hs Hsp)
        as (df' & Hdf' & Hrows).
      unfold rank_with_specialty_priority. rewrite Hdf'. simpl.
      inversion Hrows as [|? r' ? df'' (sp & _ & ->) _]; subst.
      unfold sort_values. rewrite (mapM_head_Raise _ _ _ (KeyError c)); [done |].
      unfold keyed.
      by rewrite (sort_key_of_missing r (VNum _) _ before after c
                    Hsplit Hb Hc eq_refl).
Qed.

Lemma ranker_requirements_and_key_errors_witness :
  (∃ out,
     rank_with_specialty_priority sample_scored_frame sample_member 3 = Ok out
     ∧ Forall (has_cells ("specialty" :: sort_columns)) sample_scored_frame)
  ∧ rank_with_specialty_priority [] ∅ 3
    = Raise (KeyError "primary_specialty_needed")
  ∧ rank_with_specialty_priority []
      {[ "primary_specialty_needed" := VStr "Cardiology" ]} 3
    = Raise (KeyError "secondary_specialty_needed")
  ∧ rank_with_specialty_priority [sample_provider "near" 3] sample_member 3
    = Raise (KeyError "quality_score")
  ∧ rank_with_specialty_priority [{[ "name" := VStr "A" ]}] sample_member 3
    = Raise (KeyError "specialty").
Proof.
  split; [| split; [| split; [| split]]].
  - destruct (rank_total sample_scored_frame sample_member 3) as [out Hout];
      [by eexists | by eexists | repeat constructor; by eexists |].
    exists out. split; [exact Hout |].
    apply (ranker_requirements_and_key_errors sample_scored_frame
             sample_member 3). by exists out.
  - by apply (ranker_requirements_and_key_errors [] ∅ 3).
  - apply (ranker_requirements_and_key_errors []
             {[ "primary_specialty_needed" := VStr "Cardiology" ]} 3);
      [by eexists | done].
  - apply (ranker_requirements_and_key_errors [sample_provider "near" 3]
             sample_member 3)
      with (before := []) (after := ["distance_miles"; "insurance_payment"]);
      [by eexists | by eexists | done | | done | | done].
    + repeat constructor. by eexists.
    + repeat constructor.
  - by apply (ranker_requirements_and_key_errors [{[ "name" := VStr "A" ]}]
                sample_member 3); [eexists | eexists | |].
Defined.

(** ** The request handler: further properties *)

Lemma Forall2_elem_of_r {A B : Type} (P : A → B → Prop) (l : list A)
    (k : list B) (y : B) :
  Forall2 P l k → y ∈ k → ∃ x, x ∈ l ∧ P x y.
Proof.
  induction 1 as [|a b l k Hab _ IH]; intros Hy.
  - by apply elem_of_nil in Hy.
  - apply elem_of_cons in Hy as [-> | Hy].
    + exists a. split; [left | done].
    + destruct (IH Hy) as (x & Hx & HP). exists x. split; [by right | done].
Qed.

Lemma quality_model_rows (df out : frame) (member : row) :
  quality_model df member = Ok out →
  Forall2 (λ r r', same_outside quality_columns r r'
                   ∧ ∃ q, r' !! "quality_score" = Some (VNum q)
                       ∧ 1 <= q ∧ q <= 5) df out.
Proof.
  unfold quality_model. intros H. inv_bind H. apply mapM_Ok in H.
  eapply Forall2_impl; [exact H |]. intros r r' Hr. simpl in Hr.
  apply quality_row_columns in Hr as (s & Hs & _ & _ & Hq & _ & Hsame).
  split; [done |]. exists (round1 s). split; [done |].
  apply calculate_quality_score_Ok in Hs as (H1 & H5 & _).
  by apply round1_bounds.
Qed.

Lemma cost_model_rows (df out : frame) (member : row) :
  cost_model df member = Ok out →
  Forall2 (λ r r', same_outside (cost_columns ++ ["name"; "provider_name"]) r r'
                   ∧ ∃ pay, r' !! "insurance_payment" = Some (VNum pay)) df out.
Proof.
  intros (priced & Hp & ->)%cost_model_Ok. apply mapM_Ok in Hp.
  assert (Forall2 (λ r r', same_outside cost_columns r r'
                           ∧ ∃ pay, r' !! "insurance_payment" = Some (VNum pay))
            df priced) as Hrows.
  { eapply Forall2_impl; [exact Hp |]. intros r r' Hr. simpl in Hr.
    apply cost_row_Ok in Hr as (payment & share & _ & ->). split.
    - intros k Hk. unfold cost_columns in Hk. rewrite !not_elem_of_cons in Hk.
      destruct Hk as (? & ? & _). by rewrite !lookup_insert_ne.
    - exists payment. rewrite lookup_insert_ne by done. apply lookup_insert_eq. }
  unfold normalize_names. destruct (_ && _).
  - apply Forall2_fmap_r. eapply Forall2_impl; [exact Hrows |].
    intros r r' [Hsame [pay Hpay]]. split.
    + intros k Hk. rewrite not_elem_of_app, !not_elem_of_cons in Hk.
      destruct Hk as (Hc & ? & ? & _).
      rewrite rename_column_other by done. by apply Hsame.
    + exists pay. by rewrite rename_column_other.
  - eapply Forall2_impl; [exact Hrows |].
    intros r r' [Hsame Hpay]. split; [| done].
    intros k Hk. rewrite not_elem_of_app in Hk. destruct Hk as [Hc _].
    by apply Hsame.
Qed.

Lemma rank_rows (df out : frame) (member : row) (top_n : nat) :
  rank_with_specialty_priority df member top_n = Ok out →
  (length out <= top_n)%nat ∧ (length out <= length df)%nat
  ∧ ∀ r', r' ∈ out →
      ∃ r p, r ∈ df ∧ same_outside ["specialty_priority"] r r'
        ∧ r' !! "specialty_priority" = Some (VNum (inject_Z p))
        ∧ (p = 1 ∨ p = 2 ∨ p = 3)%Z.
Proof.
  intros (primary & secondary & df' & sorted & _ & _ & Hset & Hperm & _ & ->)
    %rank_sorted_frame.
  rewrite length_take. split; [lia |]. split.
  { rewrite (Permutation_length Hperm), <- (Forall2_length _ _ _ Hset). lia. }
  intros r' Hr'%elem_of_take_l. rewrite Hperm in Hr'.
  destruct (Forall2_elem_of_r _ _ _ _ Hset Hr') as (r & Hr & s & Hs & ->).
  exists r, (specialty_priority primary secondary s). split; [done |]. split.
  - intros k Hk. rewrite not_elem_of_cons in Hk. destruct Hk as [? _].
    by rewrite lookup_insert_ne.
  - split; [apply lookup_insert_eq | apply specialty_priority_range].
Qed.

Lemma select_eq_matches (df rows : frame) (c : string) (v : value) :
  select_eq df c v = Ok rows →
  Forall (λ r, ∃ x, r !! c = Some x ∧ value_eqb x v = true) rows.
Proof.
  revert rows. induction df as [|r0 df IH]; intros rows H; simpl in H.
  - apply Ok_inj in H as <-. constructor.
  - inv_bind H. inv_bind H. apply Ok_inj in H as <-.
    destruct (value_eqb a v) eqn:E; [| by apply IH].
    constructor; [| by apply IH]. exists a. split; [| done].
    unfold getitem in Ha. by destruct (r0 !! c); simplify_eq.
Qed.

Lemma select_eq_nil (df : frame) (v : value) :
  select_eq df "member_id" v = Ok [] → Forall (other_member v) df.
Proof.
  induction df as [|r0 df IH]; intros H; simpl in H; [constructor |].
  inv_bind H. inv_bind H. apply Ok_inj in H.
  destruct (value_eqb a v) eqn:E; [done |]. subst a0.
  constructor; [| by apply IH]. exists a. split; [| done].
  unfold getitem in Ha. by destruct (r0 !! "member_id"); simplify_eq.
Qed.

Section HandlerMore.

Variable great_circle : value * value → value * value → result Q.

Abbreviation api := (find_providers_api great_circle).
Abbreviation geo := (find_providers_in_radius great_circle).

Lemma geo_rows (lat lon maxv : value) (df out : frame) :
  geo lat lon df maxv = Ok out →
  (length out <= length df)%nat
  ∧ ∀ r, r ∈ out →
      ∃ limit km, to_num maxv = Ok limit
        ∧ r !! "distance_km" = Some (VNum km) ∧ km <= limit.
Proof.
  intros [[-> ->] | (_ & limit & dists & Hl & Hd & ->)]%geo_Ok.
  { split; [done |]. intros r Hr. by apply elem_of_nil in Hr. }
  split.
  - destruct (within_radius_sublist limit (zip df dists))
      as (kept & Hsub & Hsame).
    rewrite fst_zip in Hsub by (by rewrite (Forall2_length _ _ _ Hd)).
    rewrite <- (Forall2_length _ _ _ Hsame). by apply sublist_length.
  - intros r (p & d & _ & Hle & ->)%elem_of_within_radius.
    exists limit, d. split; [done |]. split; [| done].
    apply provider_data_fields.
Qed.

(** X24. Whenever [/api/find-providers] answers with a provider list, the
    status is 200, the location is that of a member row carrying the
    requested id, the list has at most 10 rows and at most as many as there
    are providers, and every row is within the member's maximum travel
    distance and carries a quality score in [1, 5], an insurance payment and
    a specialty priority of 1, 2 or 3. *)
Theorem api_answers_with_complete_nearby_providers
    (members_df providers_df l : frame) (data : request_json) (s : Z)
    (lat lon : value) :
  api members_df providers_df data = Ok (Response s (Providers l lat lon)) →
  s = 200%Z
  ∧ (length l <= 10)%nat ∧ (length l <= length providers_df)%nat
  ∧ ∃ member_id member max_km,
      json_get data "member_id" = Ok (Some member_id)
      ∧ member ∈ members_df
      ∧ (∃ v, member !! "member_id" = Some v ∧ value_eqb v member_id = true)
      ∧ member !! "latitude" = Some lat
      ∧ member !! "longitude" = Some lon
      ∧ member !! "max_travel_distance_km" = Some max_km
      ∧ Forall (answered_provider max_km) l.
Proof.
  unfold find_providers_api. intros H.
  destruct data as [d|]; [| done]. simpl in H |- *.
  destruct (d !! "member_id") as [member_id|]; [| done].
  destruct (negb (truthy member_id)); [done |].
  destruct (empty members_df || empty providers_df); [done |].
  inv_bind H. rename a into rows, Ha into Hrows.
  destruct rows as [|member rest]; [done |].
  pose proof (select_eq_subset _ _ _ _ Hrows member ltac:(left)) as Hin.
  pose proof (select_eq_matches _ _ _ _ Hrows) as Hmatch.
  apply Forall_cons in Hmatch as [Hmatch _].
  unfold getitem at 1 2 3 in H.
  destruct (member !! "latitude") as [la|] eqn:Hla; [| done].
  destruct (member !! "longitude") as [lo|] eqn:Hlo; [| done].
  destruct (member !! "max_travel_distance_km") as [max_km|] eqn:Hmax;
    [| done].
  simpl in H. inv_bind H. rename a into geo_df, Ha into Hgeo.
  apply geo_rows in Hgeo as [Hglen Hgrows].
  destruct (empty geo_df).
  { apply Ok_inj in H. injection H as <- <- <- <-.
    split; [done |]. split; [simpl; lia |]. split; [simpl; lia |].
    exists member_id, member, max_km. repeat (split; [done |]). constructor. }
  inv_bind H. rename a into quality_df, Ha into Hq.
  inv_bind H. rename a into final_df, Ha into Hc.
  inv_bind H. rename a into recommended, Ha into Hr.
  apply Ok_inj in H. injection H as <- <- <- <-.
  apply quality_model_rows in Hq. apply cost_model_rows in Hc.
  apply rank_rows in Hr as (Hr10 & Hrlen & Hrrows).
  split; [done |]. split; [done |]. split.
  { rewrite <- (Forall2_length _ _ _ Hc), <- (Forall2_length _ _ _ Hq) in Hrlen.
    lia. }
  exists member_id, member, max_km. repeat (split; [done |]).
  apply Forall_forall. intros r4 Hr4.
  destruct (Hrrows r4 Hr4) as (r3 & prio & Hr3 & H34 & Hprio & Hrange).
  destruct (Forall2_elem_of_r _ _ _ _ Hc Hr3) as (r2 & Hr2 & H23 & pay & Hpay).
  destruct (Forall2_elem_of_r _ _ _ _ Hq Hr2)
    as (r1 & Hr1 & H12 & q & Hqs & Hq1 & Hq5).
  destruct (Hgrows r1 Hr1) as (limit & km & Hlimit & Hkm & Hle).
  exists limit, km, q, pay, prio.
  split; [done |]. split.
  { rewrite H34, H23, H12; [done | | |]; unfold quality_columns, cost_columns;
      simpl; not_listed. }
  split; [done |]. split.
  { rewrite H34, H23; [done | |]; unfold cost_columns; simpl; not_listed. }
  split; [done |]. split; [done |]. split.
  { rewrite H34; [done |]. not_listed. }
  done.
Qed.

(** X25. The error answers have exactly their causes: 400 is answered only
    when the request has no truthy member id, 500 only when a dataset is
    empty, and 404 only when no member row carries the requested id. *)
Theorem api_errors_have_their_causes
    (members_df providers_df : frame) (data : request_json) (s : Z)
    (m : message) :
  api members_df providers_df data = Ok (Response s (Message m)) →
  (m = MemberIdRequired ∧ s = 400%Z
   ∧ (json_get data "member_id" = Ok None
      ∨ ∃ v, json_get data "member_id" = Ok (Some v) ∧ truthy v = false))
  ∨ (m = ServerDataNotAvailable ∧ s = 500%Z
     ∧ (members_df = [] ∨ providers_df = []))
  ∨ (∃ member_id, m = MemberNotFound member_id ∧ s = 404%Z
       ∧ json_get data "member_id" = Ok (Some member_id)
       ∧ Forall (other_member member_id) members_df).
Proof.
  unfold find_providers_api. intros H.
  destruct data as [d|]; [| done]. simpl in H |- *.
  destruct (d !! "member_id") as [member_id|] eqn:Hid.
  2: { apply Ok_inj in H. injection H as <- <-. left. auto. }
  destruct (truthy member_id) eqn:Ht; simpl in H.
  2: { apply Ok_inj in H. injection H as <- <-. left.
       split; [done |]. split; [done |]. right. eauto. }
  destruct (empty members_df || empty providers_df) eqn:He.
  { apply Ok_inj in H. injection H as <- <-. right. left.
    split; [done |]. split; [done |].
    apply orb_true_iff in He as [He | He]; apply empty_nil in He; auto. }
  inv_bind H. rename a into rows, Ha into Hrows.
  destruct rows as [|member rest].
  { apply Ok_inj in H. injection H as <- <-. right. right.
    exists member_id. repeat (split; [done |]). by apply select_eq_nil. }
  inv_bind H. inv_bind H. inv_bind H. inv_bind H.
  destruct (empty a2); [by apply Ok_inj in H |].
  inv_bind H. inv_bind H. inv_bind H. by apply Ok_inj in H.
Qed.

(** X26. A failed load disables both endpoints: if either CSV file is
    missing, the listing endpoint answers 500 and every request with a member
    id gets 500, whatever the other file held. *)
Theorem failed_load_disables_both_endpoints
    (members_csv providers_csv : option frame) (data : request_json)
    (member_id : value) :
  members_csv = None ∨ providers_csv = None →
  json_get data "member_id" = Ok (Some member_id) → truthy member_id = true →
  get_all_providers (load_data members_csv providers_csv).2
  = (500%Z, ProviderDataNotAvailable)
  ∧ api (load_data members_csv providers_csv).1
        (load_data members_csv providers_csv).2 data
    = Ok (Response 500 (Message ServerDataNotAvailable)).
Proof.
  intros Hfail Hid Ht.
  assert (load_data members_csv providers_csv = ([], [])) as ->.
  { destruct Hfail as [-> | ->]; [done |]. by destruct members_csv. }
  split; [done |]. unfold find_providers_api. rewrite Hid. simpl.
  by rewrite Ht.
Qed.

End HandlerMore.
Lemma api_answers_with_complete_nearby_providers_witness :
  ∃ l,
    find_providers_api sample_distance [sample_member]
      [sample_provider "near" 3; sample_provider "far" 11]
      (JsonObject {[ "member_id" := VStr "M1" ]})
    = Ok (Response 200 (Providers l (VNum 0) (VNum 0)))
    ∧ (length l <= 10)%nat ∧ (length l <= 2)%nat
    ∧ Forall (answered_provider (VNum 10)) l.
Proof.
  assert (∃ l,
            find_providers_api sample_distance [sample_member]
              [sample_provider "near" 3; sample_provider "far" 11]
              (JsonObject {[ "member_id" := VStr "M1" ]})
            = Ok (Response 200 (Providers l (VNum 0) (VNum 0)))) as [l Hl].
  { eexists. vm_compute. reflexivity. }
  exists l. split; [exact Hl |].
  destruct (api_answers_with_complete_nearby_providers sample_distance
              _ _ _ _ _ _ _ Hl)
    as (_ & H10 & Hlen & id & member & max_km & _ & Hin & _ & _ & _ & Hmax & Hall).
  split; [exact H10 |]. split; [exact Hlen |].
  apply list_elem_of_singleton in Hin. subst member.
  vm_compute in Hmax. injection Hmax as <-. exact Hall.
Defined.

Lemma api_errors_have_their_causes_witness :
  find_providers_api sample_distance [sample_member]
    [sample_provider "far" 11] (JsonObject {[ "member_id" := VStr "M2" ]})
  = Ok (Response 404 (Message (MemberNotFound (VStr "M2"))))
  ∧ Forall (other_member (VStr "M2")) [sample_member].
Proof.
  assert (find_providers_api sample_distance [sample_member]
            [sample_provider "far" 11]
            (JsonObject {[ "member_id" := VStr "M2" ]})
          = Ok (Response 404 (Message (MemberNotFound (VStr "M2"))))) as H
    by (vm_compute; reflexivity).
  split; [exact H |].
  destruct (api_errors_have_their_causes sample_distance _ _ _ _ _ H)
    as [(E & _) | [(E & _) | (id & E & _ & _ & Hall)]]; [done | done |].
  injection E as <-. exact Hall.
Defined.

Lemma failed_load_disables_both_endpoints_witness :
  get_all_providers (load_data None (Some [sample_provider "near" 3])).2
  = (500%Z, ProviderDataNotAvailable)
  ∧ find_providers_api sample_distance
      (load_data None (Some [sample_provider "near" 3])).1
      (load_data None (Some [sample_provider "near" 3])).2
      (JsonObject {[ "member_id" := VStr "M1" ]})
    = Ok (Response 500 (Message ServerDataNotAvailable)).
Proof.
  apply (failed_load_disables_both_endpoints sample_distance None
           (Some [sample_provider "near" 3])
           (JsonObject {[ "member_id" := VStr "M1" ]})
           (VStr "M1")); [by left | reflexivity | reflexivity].
Defined.
